(** * Pomodoit: the Pomodoro timer component (src/components/pomodoro-timer.tsx)

    A shallow embedding of the timer component: its state, its handlers, the
    effect that drives the countdown and the session log kept in
    [localStorage], together with the part of the JavaScript platform the
    component calls ([Number.prototype.toString], [String.prototype.padStart],
    [JSON.stringify], [JSON.parse], [Date.now], [alert]).

    Conventions.
    - JavaScript numbers that hold integers are modelled as [Z]; the model is
      exact on the safe integers, which is where every count of seconds and
      every [Date.now()] reading lives.
    - JavaScript strings are modelled as [string]; a character is one code
      unit below 256.
    - JSON is the fragment with integer numbers; the parser refuses a
      fraction, an exponent and an escape above code 255, and keeps the
      members of an object as the text lists them.
    - A handler reads the [state] and [sessionStart] of the render that made
      it and its updates show in the next render; the effect runs again when
      [state.timerStatus] or [state.currentTime] changed.
    - [Date.now()] reads the next value of a clock given with the world.

    The file has three parts: the definitions, sample evaluations, and the
    proofs, first of the platform functions and then of the component. *)

From Stdlib Require Import ZArith Lia List Ascii String Bool.
From stdpp Require Import base gmap strings.
Import ListNotations.

Local Open Scope Z_scope.
Local Open Scope list_scope.

(** ** Characters and decimal numerals *)

Abbreviation chars := (list ascii).

Definition code (c : ascii) : Z := Z.of_nat (nat_of_ascii c).

Definition is_digit (c : ascii) : bool := (48 <=? code c) && (code c <=? 57).

Definition digit_val (c : ascii) : Z := code c - 48.

Definition digit_char (d : Z) : ascii := ascii_of_nat (Z.to_nat (48 + d)).

(** The value of a run of decimal digits, most significant first. *)
Definition decimal_value (ds : chars) : Z :=
  fold_left (fun acc c => 10 * acc + digit_val c) ds 0.

(** The decimal digits of a non-negative integer, without leading zeros.
    [fuel] bounds the number of digits; [Z.log2 n + 1] is always enough. *)
Fixpoint digits_of (fuel : nat) (n : Z) : chars :=
  match fuel with
  | O => []
  | S fuel' =>
      if n <? 10 then [digit_char n]
      else digits_of fuel' (n / 10) ++ [digit_char (n mod 10)]
  end.

Definition digits (n : Z) : chars := digits_of (S (Z.to_nat (Z.log2 n))) n.

(** [Number.prototype.toString] on an integer. *)
Definition Number_toString_chars (n : Z) : chars :=
  if n <? 0 then "-"%char :: digits (- n) else digits n.

Definition Number_toString (n : Z) : string :=
  string_of_list_ascii (Number_toString_chars n).

(** ** [String.prototype.padStart] *)

(** [fill_chars n cur whole] is the first [n] characters of [cur] followed by
    [whole] repeated for ever. *)
Fixpoint fill_chars (n : nat) (cur whole : chars) : chars :=
  match n with
  | O => []
  | S k =>
      match cur with
      | c :: cs => c :: fill_chars k cs whole
      | [] =>
          match whole with
          | c :: cs => c :: fill_chars k cs whole
          | [] => []
          end
      end
  end.

Definition padStart (s : string) (targetLength : nat) (fillString : string) : string :=
  let len := String.length s in
  if (targetLength <=? len)%nat then s
  else
    let fill := list_ascii_of_string fillString in
    string_of_list_ascii (fill_chars (targetLength - len) fill fill) +:+ s.

(** ** formatTime (pomodoro-timer.tsx, lines 217-223) *)

Definition formatTime (seconds : Z) : string :=
  let minutes := seconds / 60 in
  let remainingSeconds := Z.rem seconds 60 in
  padStart (Number_toString minutes) 2 "0" +:+ ":" +:+
  padStart (Number_toString remainingSeconds) 2 "0".

(** ** JSON values, [JSON.stringify] and [JSON.parse]

    The values [JSON.parse] can produce.  Numbers are the integer ones, and
    an object is the list of its members in the order of the text. *)

#[warnings="-register-all"]
Inductive json : Type :=
| JNull
| JBool (b : bool)
| JNum (n : Z)
| JStr (s : string)
| JArr (elems : list json)
| JObj (members : list (string * json)).

(** *** Serialisation *)

Definition hex_char (d : Z) : ascii :=
  if d <? 10 then digit_char d else ascii_of_nat (Z.to_nat (87 + d)).

(** One code unit inside a quoted JSON string (QuoteJSONString). *)
Definition quote_char (c : ascii) : chars :=
  match c with
  | "034"%char => ["\"; "034"]%char
  | "\"%char => ["\"; "\"]%char
  | "008"%char => ["\"; "b"]%char
  | "012"%char => ["\"; "f"]%char
  | "010"%char => ["\"; "n"]%char
  | "013"%char => ["\"; "r"]%char
  | "009"%char => ["\"; "t"]%char
  | _ =>
      if code c <? 32
      then ["\"; "u"; "0"; "0"; hex_char (code c / 16); hex_char (code c mod 16)]%char
      else [c]
  end.

Definition quote_body (s : chars) : chars := flat_map quote_char s.

Definition quote (s : string) : chars :=
  "034"%char :: quote_body (list_ascii_of_string s) ++ ["034"%char].

Fixpoint join_comma (parts : list chars) : chars :=
  match parts with
  | [] => []
  | [p] => p
  | p :: ps => p ++ ","%char :: join_comma ps
  end.

Fixpoint render (v : json) : chars :=
  match v with
  | JNull => ["n"; "u"; "l"; "l"]%char
  | JBool true => ["t"; "r"; "u"; "e"]%char
  | JBool false => ["f"; "a"; "l"; "s"; "e"]%char
  | JNum n => Number_toString_chars n
  | JStr s => quote s
  | JArr elems => "["%char :: join_comma (map render elems) ++ ["]"%char]
  | JObj members =>
      "{"%char ::
      join_comma (map (fun m => quote (fst m) ++ ":"%char :: render (snd m)) members)
      ++ ["}"%char]
  end.

Definition JSON_stringify (v : json) : string := string_of_list_ascii (render v).

(** *** Parsing *)

Definition is_ws (c : ascii) : bool :=
  match c with
  | " "%char | "009"%char | "010"%char | "013"%char => true
  | _ => false
  end.

Fixpoint skip_ws (input : chars) : chars :=
  match input with
  | c :: rest => if is_ws c then skip_ws rest else input
  | [] => []
  end.

Fixpoint strip_prefix (lit input : chars) : option chars :=
  match lit with
  | [] => Some input
  | l :: lit' =>
      match input with
      | c :: rest => if Ascii.eqb l c then strip_prefix lit' rest else None
      | [] => None
      end
  end.

Definition hex_val (c : ascii) : option Z :=
  if is_digit c then Some (digit_val c)
  else if (97 <=? code c) && (code c <=? 102) then Some (code c - 87)
  else if (65 <=? code c) && (code c <=? 70) then Some (code c - 55)
  else None.

Definition hex4 (h1 h2 h3 h4 : ascii) : option Z :=
  match hex_val h1, hex_val h2, hex_val h3, hex_val h4 with
  | Some a, Some b, Some c, Some d => Some (((a * 16 + b) * 16 + c) * 16 + d)
  | _, _, _, _ => None
  end.

Definition char_of_code (n : Z) : ascii := ascii_of_nat (Z.to_nat n).

(** The characters of a string literal up to its closing quote; [input]
    starts after the opening quote.  An escape above code 255
    names no character of the model and is refused. *)
Fixpoint parse_chars (input : chars) : option (chars * chars) :=
  let continue c rest :=
    match parse_chars rest with
    | Some (s, r) => Some (c :: s, r)
    | None => None
    end in
  match input with
  | [] => None
  | "034"%char :: rest => Some ([], rest)
  | "\"%char :: e :: rest =>
      match e with
      | "034"%char => continue "034"%char rest
      | "\"%char => continue "\"%char rest
      | "/"%char => continue "/"%char rest
      | "b"%char => continue "008"%char rest
      | "f"%char => continue "012"%char rest
      | "n"%char => continue "010"%char rest
      | "r"%char => continue "013"%char rest
      | "t"%char => continue "009"%char rest
      | "u"%char =>
          match rest with
          | h1 :: h2 :: h3 :: h4 :: rest' =>
              match hex4 h1 h2 h3 h4 with
              | Some n => if n <? 256 then continue (char_of_code n) rest' else None
              | None => None
              end
          | _ => None
          end
      | _ => None
      end
  | c :: rest => if code c <? 32 then None else continue c rest
  end.

Fixpoint span_digits (input : chars) : chars * chars :=
  match input with
  | c :: rest =>
      if is_digit c
      then let (ds, r) := span_digits rest in (c :: ds, r)
      else ([], input)
  | [] => ([], [])
  end.

(** A JSON number of the integer fragment: an optional minus sign and a run
    of digits without a leading zero.  A fraction or an exponent is outside
    the fragment and is refused. *)
Definition parse_number (input : chars) : option (Z * chars) :=
  let (negative, body) :=
    match input with
    | "-"%char :: r => (true, r)
    | _ => (false, input)
    end in
  let (ds, rest) := span_digits body in
  match ds with
  | [] => None
  | "0"%char :: _ :: _ => None
  | _ =>
      match rest with
      | "."%char :: _ | "e"%char :: _ | "E"%char :: _ => None
      | _ => Some (if negative then - decimal_value ds else decimal_value ds, rest)
      end
  end.

(** The outcome of a parser that runs on fuel. *)
Inductive parsed (A : Type) : Type :=
| Parsed (a : A) (rest : chars)
| SyntaxErr
| OutOfFuel.
Arguments Parsed {A} a rest.
Arguments SyntaxErr {A}.
Arguments OutOfFuel {A}.

Definition parsed_map {A B} (f : A -> B) (p : parsed A) : parsed B :=
  match p with
  | Parsed a rest => Parsed (f a) rest
  | SyntaxErr => SyntaxErr
  | OutOfFuel => OutOfFuel
  end.

Inductive lead : Type :=
| LNull | LTrue | LFalse | LString | LArray | LObject | LOther.

Definition classify (c : ascii) : lead :=
  match c with
  | "n"%char => LNull
  | "t"%char => LTrue
  | "f"%char => LFalse
  | "034"%char => LString
  | "["%char => LArray
  | "{"%char => LObject
  | _ => LOther
  end.

Definition literal (lit : chars) (v : json) (input : chars) : parsed json :=
  match strip_prefix lit input with
  | Some rest => Parsed v rest
  | None => SyntaxErr
  end.

Fixpoint parse_value (fuel : nat) (input : chars) : parsed json :=
  match fuel with
  | O => OutOfFuel
  | S fuel' =>
      match skip_ws input with
      | [] => SyntaxErr
      | c :: rest =>
          match classify c with
          | LNull => literal ["u"; "l"; "l"]%char JNull rest
          | LTrue => literal ["r"; "u"; "e"]%char (JBool true) rest
          | LFalse => literal ["a"; "l"; "s"; "e"]%char (JBool false) rest
          | LString =>
              match parse_chars rest with
              | Some (s, r) => Parsed (JStr (string_of_list_ascii s)) r
              | None => SyntaxErr
              end
          | LArray =>
              match skip_ws rest with
              | "]"%char :: r => Parsed (JArr []) r
              | _ => parsed_map JArr (parse_elements fuel' rest)
              end
          | LObject =>
              match skip_ws rest with
              | "}"%char :: r => Parsed (JObj []) r
              | _ => parsed_map JObj (parse_members fuel' rest)
              end
          | LOther =>
              match parse_number (c :: rest) with
              | Some (n, r) => Parsed (JNum n) r
              | None => SyntaxErr
              end
          end
      end
  end

with parse_elements (fuel : nat) (input : chars) : parsed (list json) :=
  match fuel with
  | O => OutOfFuel
  | S fuel' =>
      match parse_value fuel' input with
      | Parsed v rest =>
          match skip_ws rest with
          | ","%char :: rest' => parsed_map (cons v) (parse_elements fuel' rest')
          | "]"%char :: rest' => Parsed [v] rest'
          | _ => SyntaxErr
          end
      | SyntaxErr => SyntaxErr
      | OutOfFuel => OutOfFuel
      end
  end

with parse_members (fuel : nat) (input : chars) : parsed (list (string * json)) :=
  match fuel with
  | O => OutOfFuel
  | S fuel' =>
      match skip_ws input with
      | "034"%char :: rest =>
          match parse_chars rest with
          | Some (k, rest1) =>
              match skip_ws rest1 with
              | ":"%char :: rest2 =>
                  match parse_value fuel' rest2 with
                  | Parsed v rest3 =>
                      match skip_ws rest3 with
                      | ","%char :: rest4 =>
                          parsed_map (cons (string_of_list_ascii k, v))
                                     (parse_members fuel' rest4)
                      | "}"%char :: rest4 => Parsed [(string_of_list_ascii k, v)] rest4
                      | _ => SyntaxErr
                      end
                  | SyntaxErr => SyntaxErr
                  | OutOfFuel => OutOfFuel
                  end
              | _ => SyntaxErr
              end
          | None => SyntaxErr
          end
      | _ => SyntaxErr
      end
  end.

(** Two units of fuel per character, and one more, always suffice
    ([parse_value_fuel] below). *)
Definition parse_fuel (input : chars) : nat := S (2 * length input).

(** [JSON.parse]: [None] stands for the [SyntaxError] it throws. *)
Definition JSON_parse (text : string) : option json :=
  let input := list_ascii_of_string text in
  match parse_value (parse_fuel input) input with
  | Parsed v rest =>
      match skip_ws rest with
      | [] => Some v
      | _ :: _ => None
      end
  | SyntaxErr => None
  | OutOfFuel => None
  end.

(** *** Vocabulary for the parser's proofs *)

(** A numeral in normal form: digits only, and no leading zero but for the
    numeral [0] itself. *)
Definition numeral (ds : chars) : Prop :=
  forallb is_digit ds = true /\
  match ds with
  | [] => False
  | [_] => True
  | c :: _ => c <> "0"%char
  end.

(** What follows a value inside a serialised text. *)
Definition delimited (rest : chars) : Prop :=
  match rest with
  | [] => True
  | c :: _ => c = ","%char \/ c = "]"%char \/ c = "}"%char
  end.

(** The first character of a serialised value. *)
Definition head_chars : chars :=
  ["n"; "t"; "f"; "034"; "["; "{"; "-"; "0"; "1"; "2"; "3"; "4"; "5"; "6"; "7"; "8"; "9"]%char.

(** One member of a serialised object. *)
Definition render_member (m : string * json) : chars :=
  quote (fst m) ++ ":"%char :: render (snd m).

(** A value that parses back from its serialisation, whatever follows it
    and with any fuel above twice the length of the serialisation. *)
Definition roundtrips (v : json) : Prop :=
  forall fuel rest,
    delimited rest -> (2 * length (render v) < fuel)%nat ->
    parse_value fuel (render v ++ rest) = Parsed v rest.

(** What a parser on fuel owes: it consumes input when it succeeds, and two
    units of fuel per character, plus [extra], keep it from running out. *)
Definition well_fuelled {A} (extra : nat) (parser : nat -> chars -> parsed A)
    (fuel : nat) : Prop :=
  forall input,
    (forall a r, parser fuel input = Parsed a r -> (length r < length input)%nat) /\
    ((2 * length input + extra <= fuel)%nat -> parser fuel input <> OutOfFuel).

(** ** The component's data (pomodoro-timer.tsx, lines 27-46) *)

Inductive TimerStatus : Type := idle | running | paused.
Inductive SessionType : Type := work | break.

#[global] Instance TimerStatus_eq_dec : EqDecision TimerStatus.
Proof. solve_decision. Defined.
#[global] Instance SessionType_eq_dec : EqDecision SessionType.
Proof. solve_decision. Defined.

Record PomodoroState : Type := {
  workDuration : Z;
  breakDuration : Z;
  currentTime : Z;
  currentSession : SessionType;
  timerStatus : TimerStatus;
  userName : string
}.

Module Log.
Record SessionLog : Type := {
  userName : string;
  sessionType : SessionType;
  startTime : Z;
  endTime : Z;
  interrupted : bool
}.
End Log.
Abbreviation SessionLog := Log.SessionLog.

Definition SessionType_toString (t : SessionType) : string :=
  match t with work => "work" | break => "break" end.

(** The JSON value of a session record, with the properties in the order of
    the object literal of [handleEndSession]. *)
Definition SessionLog_toJSON (l : SessionLog) : json :=
  JObj [ ("userName"%string, JStr (Log.userName l));
         ("sessionType"%string, JStr (SessionType_toString (Log.sessionType l)));
         ("startTime"%string, JNum (Log.startTime l));
         ("endTime"%string, JNum (Log.endTime l));
         ("interrupted"%string, JBool (Log.interrupted l)) ].

(** ** The world the component runs in *)

Inductive JsError : Type := SyntaxError | TypeError.

Record World : Type := {
  stateHook : PomodoroState;        (* useState<PomodoroState> *)
  sessionStartHook : option Z;      (* useState<number | null> *)
  timerRef : bool;                  (* the interval of timerRef.current is live *)
  localStorage : gmap string string;
  alerts : list string;             (* the messages shown by alert() *)
  clock : nat -> Z;                 (* the successive readings of Date.now() *)
  clockReads : nat                  (* how many readings were taken *)
}.

Inductive Res (A : Type) : Type :=
| Ret (a : A) (w : World)
| Exn (e : JsError) (w : World).
Arguments Ret {A} a w.
Arguments Exn {A} e w.

(** Computations that read and write the world and may throw. *)
Definition M (A : Type) : Type := World -> Res A.

#[global] Instance M_ret : MRet M := fun A a w => Ret a w.
#[global] Instance M_bind : MBind M := fun A B f m w =>
  match m w with
  | Ret a w' => f a w'
  | Exn e w' => Exn e w'
  end.

Definition throw {A} (e : JsError) : M A := fun w => Exn e w.

(** The world with one field replaced. *)
Definition put_state (st : PomodoroState) (w : World) : World :=
  {| stateHook := st; sessionStartHook := sessionStartHook w;
     timerRef := timerRef w; localStorage := localStorage w;
     alerts := alerts w; clock := clock w; clockReads := clockReads w |}.

Definition put_sessionStart (v : option Z) (w : World) : World :=
  {| stateHook := stateHook w; sessionStartHook := v;
     timerRef := timerRef w; localStorage := localStorage w;
     alerts := alerts w; clock := clock w; clockReads := clockReads w |}.

Definition put_timerRef (b : bool) (w : World) : World :=
  {| stateHook := stateHook w; sessionStartHook := sessionStartHook w;
     timerRef := b; localStorage := localStorage w;
     alerts := alerts w; clock := clock w; clockReads := clockReads w |}.

Definition put_localStorage (ls : gmap string string) (w : World) : World :=
  {| stateHook := stateHook w; sessionStartHook := sessionStartHook w;
     timerRef := timerRef w; localStorage := ls;
     alerts := alerts w; clock := clock w; clockReads := clockReads w |}.

Definition put_alerts (a : list string) (w : World) : World :=
  {| stateHook := stateHook w; sessionStartHook := sessionStartHook w;
     timerRef := timerRef w; localStorage := localStorage w;
     alerts := a; clock := clock w; clockReads := clockReads w |}.

Definition put_clockReads (n : nat) (w : World) : World :=
  {| stateHook := stateHook w; sessionStartHook := sessionStartHook w;
     timerRef := timerRef w; localStorage := localStorage w;
     alerts := alerts w; clock := clock w; clockReads := n |}.

(** An update passed to [setState] applies to the latest pending state. *)
Definition setState (f : PomodoroState -> PomodoroState) : M unit := fun w =>
  Ret tt (put_state (f (stateHook w)) w).

Definition setSessionStart (v : option Z) : M unit := fun w =>
  Ret tt (put_sessionStart v w).

(** [setInterval(..., 1000)] stored in [timerRef.current], and
    [clearInterval(timerRef.current)]. *)
Definition setInterval : M unit := fun w => Ret tt (put_timerRef true w).
Definition clearInterval : M unit := fun w => Ret tt (put_timerRef false w).

Definition localStorage_getItem (key : string) : M (option string) := fun w =>
  Ret (localStorage w !! key) w.

Definition localStorage_setItem (key value : string) : M unit := fun w =>
  Ret tt (put_localStorage (<[key := value]> (localStorage w)) w).

Definition alert (message : string) : M unit := fun w =>
  Ret tt (put_alerts (alerts w ++ [message]) w).

Definition Date_now : M Z := fun w =>
  Ret (clock w (clockReads w)) (put_clockReads (S (clockReads w)) w).

(** [JSON.parse] throws a [SyntaxError] on a text that is not JSON. *)
Definition JSON_parse_or_throw (text : string) : M json :=
  match JSON_parse text with
  | Some v => mret v
  | None => throw SyntaxError
  end.

(** [sessionLogs.push(x)]: only an array has a [push] to call. *)
Definition Array_push (sessionLogs : json) (x : json) : M json :=
  match sessionLogs with
  | JArr elems => mret (JArr (elems ++ [x]))
  | _ => throw TypeError
  end.

(** ** The handlers of one render

    A handler is a closure over the [state] and the [sessionStart] of the
    render that created it; what it passes to [setState] and
    [setSessionStart] only shows in the next render. *)

(** The message of the alert of [handleStartPause]. *)
Definition validation_message : string := "Por favor, insira seu nome antes de iniciar!".

(** The update [{ ...prev, timerStatus: s }] of lines 142 and 146. *)
Definition with_timerStatus (s : TimerStatus) (prev : PomodoroState) : PomodoroState :=
  {| workDuration := workDuration prev;
     breakDuration := breakDuration prev;
     currentTime := currentTime prev;
     currentSession := currentSession prev;
     timerStatus := s;
     userName := userName prev |}.

(** The update of lines 164-169 and 182-187: back to an idle work session
    of full length. *)
Definition baseline (prev : PomodoroState) : PomodoroState :=
  {| workDuration := workDuration prev;
     breakDuration := breakDuration prev;
     currentTime := workDuration prev;
     currentSession := work;
     timerStatus := idle;
     userName := userName prev |}.

Section Render.
Variable state : PomodoroState.
Variable sessionStart : option Z.

(* lines 95-97 *)
Definition startNewSession : M unit :=
  now ← Date_now; setSessionStart (Some now).

(* lines 120-130 *)
Definition saveSessionToLocalStorage (session : SessionLog) : M unit :=
  storedData ← localStorage_getItem "pomodoitSessions";
  sessionLogs ← match storedData with
                | Some text =>
                    if String.eqb text "" then mret (JArr [])
                    else JSON_parse_or_throw text
                | None => mret (JArr [])
                end;
  sessionLogs' ← Array_push sessionLogs (SessionLog_toJSON session);
  localStorage_setItem "pomodoitSessions" (JSON_stringify sessionLogs').

(* lines 100-117; [!sessionStart] holds of null and of 0 *)
Definition handleEndSession (wasInterrupted : bool) : M unit :=
  match sessionStart with
  | None => mret tt
  | Some start =>
      if start =? 0 then mret tt
      else
        endTime ← Date_now;
        let newSessionLog :=
          {| Log.userName := userName state;
             Log.sessionType := currentSession state;
             Log.startTime := start;
             Log.endTime := endTime;
             Log.interrupted := wasInterrupted |} in
        saveSessionToLocalStorage newSessionLog;;
        setSessionStart None
  end.

(* lines 81-92 *)
Definition handleSessionSwitch : M unit :=
  setState (fun prev =>
    let isWorkSession := bool_decide (currentSession prev = work) in
    {| workDuration := workDuration prev;
       breakDuration := breakDuration prev;
       currentTime := if isWorkSession then breakDuration prev else workDuration prev;
       currentSession := if isWorkSession then break else work;
       timerStatus := timerStatus prev;
       userName := userName prev |});;
  startNewSession.

(* lines 133-153 *)
Definition handleStartPause : M unit :=
  if String.eqb (userName state) ""
  then alert validation_message
  else if bool_decide (timerStatus state = running)
  then setState (with_timerStatus paused);; clearInterval
  else
    setState (with_timerStatus running);;
    match sessionStart with
    | None => startNewSession
    | Some start => if start =? 0 then startNewSession else mret tt
    end.

(* lines 156-171 *)
Definition handleInterrupt : M unit :=
  if bool_decide (timerStatus state <> idle)
  then clearInterval;; handleEndSession true;; setState baseline
  else mret tt.

(* lines 174-188 *)
Definition handleReset : M unit :=
  clearInterval;;
  (if bool_decide (timerStatus state = running) || bool_decide (timerStatus state = paused)
   then handleEndSession true
   else mret tt);;
  setState baseline.

(* lines 191-214 *)
Definition handleDurationChange (type : SessionType) (increment : bool) : M unit :=
  setState (fun prev =>
    let durationChange := if increment then 60 else -60 in
    match type with
    | work =>
        {| workDuration := Z.max 60 (workDuration prev + durationChange);
           breakDuration := breakDuration prev;
           currentTime :=
             if bool_decide (currentSession prev = work)
             then Z.max 60 (workDuration prev + durationChange)
             else currentTime prev;
           currentSession := currentSession prev;
           timerStatus := timerStatus prev;
           userName := userName prev |}
    | break =>
        {| workDuration := workDuration prev;
           breakDuration := Z.max 60 (breakDuration prev + durationChange);
           currentTime :=
             if bool_decide (currentSession prev = break)
             then Z.max 60 (breakDuration prev + durationChange)
             else currentTime prev;
           currentSession := currentSession prev;
           timerStatus := timerStatus prev;
           userName := userName prev |}
    end).

(* lines 226-228 *)
Definition handleUserNameChange (value : string) : M unit :=
  setState (fun prev =>
    {| workDuration := workDuration prev;
       breakDuration := breakDuration prev;
       currentTime := currentTime prev;
       currentSession := currentSession prev;
       timerStatus := timerStatus prev;
       userName := value |}).

(* the callback of the interval, line 69 *)
Definition tick : M unit :=
  setState (fun prev =>
    {| workDuration := workDuration prev;
       breakDuration := breakDuration prev;
       currentTime := currentTime prev - 1;
       currentSession := currentSession prev;
       timerStatus := timerStatus prev;
       userName := userName prev |}).

(* the effect of lines 66-78 and the cleanup it returns *)
Definition effect : M unit :=
  if bool_decide (timerStatus state = running) && (0 <? currentTime state)
  then setInterval
  else if currentTime state =? 0
  then clearInterval;; handleEndSession false;; handleSessionSwitch
  else mret tt.

Definition cleanup : M unit := clearInterval.
End Render.

(** ** Rendering and events

    After a handler has run, React renders again; when a dependency of the
    effect ([state.timerStatus], [state.currentTime]) differs from the
    render before, the cleanup of the old effect runs and then the effect of
    the new render, which may in turn update the state.  An error thrown by
    a handler is reported and leaves the component mounted; an error thrown
    by the effect unmounts it. *)

Inductive Outcome : Type :=
| Settled (w : World)
| Threw (e : JsError) (w : World)
| Unmounted (e : JsError) (w : World)
| Unsettled.

Definition same_deps (a b : PomodoroState) : bool :=
  bool_decide (timerStatus a = timerStatus b) && (currentTime a =? currentTime b).

Fixpoint rerender (fuel : nat) (rendered : PomodoroState) (w : World) : Outcome :=
  if same_deps rendered (stateHook w) then Settled w
  else
    match fuel with
    | O => Unsettled
    | S fuel' =>
        match (cleanup;; effect (stateHook w) (sessionStartHook w)) w with
        | Ret _ w' => rerender fuel' (stateHook w) w'
        | Exn e w' => Unmounted e w'
        end
    end.

(** The effect runs at most twice in a row ([rerender_fuel] below). *)
Definition effect_runs : nat := 2.

Definition dispatch (handler : PomodoroState -> option Z -> M unit) (w : World) : Outcome :=
  match handler (stateHook w) (sessionStartHook w) w with
  | Ret _ w' => rerender effect_runs (stateHook w) w'
  | Exn e w' =>
      match rerender effect_runs (stateHook w) w' with
      | Settled w'' => Threw e w''
      | o => o
      end
  end.

Inductive Event : Type :=
| StartPause                                          (* onClick={handleStartPause} *)
| Reset                                               (* onClick={handleReset} *)
| Interrupt                                           (* onClick={handleInterrupt} *)
| DurationChange (type : SessionType) (increment : bool)
| UserNameChange (value : string)                     (* onChange of the input *)
| Tick.                                               (* the interval fires *)

Definition step (ev : Event) (w : World) : Outcome :=
  match ev with
  | StartPause => dispatch handleStartPause w
  | Reset => dispatch handleReset w
  | Interrupt => dispatch handleInterrupt w
  | DurationChange type increment =>
      dispatch (fun _ _ => handleDurationChange type increment) w
  | UserNameChange value => dispatch (fun _ _ => handleUserNameChange value) w
  | Tick => if timerRef w then dispatch (fun _ _ => tick) w else Settled w
  end.

(** The world an outcome leaves to the next event, if the component is
    still mounted. *)
Definition mounted (o : Outcome) : option World :=
  match o with
  | Settled w | Threw _ w => Some w
  | Unmounted _ _ | Unsettled => None
  end.

Fixpoint run (evs : list Event) (w : World) : option World :=
  match evs with
  | [] => Some w
  | ev :: evs' =>
      match mounted (step ev w) with
      | Some w' => run evs' w'
      | None => None
      end
  end.

(** The first render (lines 50-63). *)
Definition initialState : PomodoroState :=
  {| workDuration := 90 * 60;
     breakDuration := 5 * 60;
     currentTime := 90 * 60;
     currentSession := work;
     timerStatus := idle;
     userName := "" |}.

Definition initialWorld (storage : gmap string string) (clk : nat -> Z) : World :=
  {| stateHook := initialState; sessionStartHook := None; timerRef := false;
     localStorage := storage; alerts := []; clock := clk; clockReads := 0 |}.

(** The effect of the first render finds the timer idle and does nothing. *)
Definition mount (storage : gmap string string) (clk : nat -> Z) : Outcome :=
  match effect initialState None (initialWorld storage clk) with
  | Ret _ w => rerender effect_runs initialState w
  | Exn e w => Unmounted e w
  end.

Definition reachable (w : World) : Prop :=
  exists storage clk evs,
    (forall n, clk n <> 0) /\ run evs (initialWorld storage clk) = Some w.

(** *** The persisted log *)

Definition stored (w : World) : option string :=
  localStorage w !! "pomodoitSessions"%string.

(** The sequence the next append starts from: empty when nothing (or the
    empty string) is stored, the elements of the stored array otherwise;
    [None] when the stored text is not a JSON array. *)
Definition storedLogs (w : World) : option (list json) :=
  match stored w with
  | None => Some []
  | Some text =>
      if String.eqb text "" then Some []
      else match JSON_parse text with
           | Some (JArr elems) => Some elems
           | _ => None
           end
  end.

(** The world after [text] was written under the key of the log. *)
Definition write_log (text : string) (w : World) : World :=
  put_localStorage (<["pomodoitSessions"%string := text]> (localStorage w)) w.

(** The record [handleEndSession] builds when it closes the session that
    began at [start]. *)
Definition closed_entry (st : PomodoroState) (start : Z) (wasInterrupted : bool) (w : World)
  : SessionLog :=
  {| Log.userName := userName st;
     Log.sessionType := currentSession st;
     Log.startTime := start;
     Log.endTime := clock w (clockReads w);
     Log.interrupted := wasInterrupted |}.

(** The conjunction of what holds of the component between two events. *)
Record Inv (w : World) : Prop := {
  inv_work : 60 <= workDuration (stateHook w);
  inv_break : 60 <= breakDuration (stateHook w);
  inv_time : 0 < currentTime (stateHook w);
  inv_idle : timerStatus (stateHook w) = idle ->
             sessionStartHook w = None /\ currentSession (stateHook w) = work /\
             currentTime (stateHook w) = workDuration (stateHook w) /\
             timerRef w = false;
  inv_open : timerStatus (stateHook w) <> idle ->
             exists start, sessionStartHook w = Some start /\ start <> 0;
  inv_timer : timerRef w = true -> timerStatus (stateHook w) = running;
  inv_clock : forall n, clock w n <> 0
}.

(** *** Worlds after an event *)

(** The state with another [currentTime], and with another [userName]. *)
Definition with_currentTime (t : Z) (st : PomodoroState) : PomodoroState :=
  {| workDuration := workDuration st; breakDuration := breakDuration st;
     currentTime := t; currentSession := currentSession st;
     timerStatus := timerStatus st; userName := userName st |}.

Definition with_userName (value : string) (st : PomodoroState) : PomodoroState :=
  {| workDuration := workDuration st; breakDuration := breakDuration st;
     currentTime := currentTime st; currentSession := currentSession st;
     timerStatus := timerStatus st; userName := value |}.

(** What [handleInterrupt] and [handleReset] do to an open session. *)
Definition interrupted_world (logs : list json) (start : Z) (w : World) : World :=
  {| stateHook := baseline (stateHook w);
     sessionStartHook := None;
     timerRef := false;
     localStorage :=
       <["pomodoitSessions"%string :=
           JSON_stringify
             (JArr (logs ++ [SessionLog_toJSON (closed_entry (stateHook w) start true w)]))]>
         (localStorage w);
     alerts := alerts w;
     clock := clock w;
     clockReads := S (clockReads w) |}.

(** What the last tick of a session leaves. *)
Definition switched_world (logs : list json) (start : Z) (w : World) : World :=
  let st := stateHook w in
  let isWorkSession := bool_decide (currentSession st = work) in
  {| stateHook :=
       {| workDuration := workDuration st; breakDuration := breakDuration st;
          currentTime := if isWorkSession then breakDuration st else workDuration st;
          currentSession := if isWorkSession then break else work;
          timerStatus := timerStatus st; userName := userName st |};
     sessionStartHook := Some (clock w (S (clockReads w)));
     timerRef := true;
     localStorage :=
       <["pomodoitSessions"%string :=
           JSON_stringify
             (JArr (logs ++ [SessionLog_toJSON (closed_entry st start false w)]))]>
         (localStorage w);
     alerts := alerts w;
     clock := clock w;
     clockReads := S (S (clockReads w)) |}.

(** The world an outcome carries, mounted or not. *)
Definition world_of (o : Outcome) : option World :=
  match o with
  | Settled w | Threw _ w | Unmounted _ w => Some w
  | Unsettled => None
  end.

(** [w'] holds the log of [w] followed by zero or more elements. *)
Definition extends (w w' : World) : Prop :=
  forall old, storedLogs w = Some old ->
  exists new, storedLogs w' = Some (old ++ new).

(** A computation that leaves the stored log extended, also when it throws. *)
Definition appending {A} (m : M A) : Prop :=
  forall w, match m w with Ret _ w' | Exn _ w' => extends w w' end.

(** *** Sample worlds *)

(** A clock whose readings are 1, 2, 3, ... *)
Definition sample_clock (n : nat) : Z := Z.of_nat (S n).

(** The component just mounted, with nothing stored. *)
Definition sample_world : World := initialWorld ∅ sample_clock.

(** The worlds some runs from there end in. *)
Definition sample_started : World :=
  default sample_world (run [UserNameChange "ana"; StartPause] sample_world).

Definition sample_running : World :=
  default sample_world (run [UserNameChange "ana"; StartPause; Tick] sample_world).

Definition sample_idle : World :=
  default sample_world
    (run [UserNameChange "ana"; StartPause; Tick; DurationChange work true; Interrupt]
         sample_world).

(** Two session records. *)
Definition sample_entry : SessionLog :=
  {| Log.userName := "ana"; Log.sessionType := work;
     Log.startTime := 1; Log.endTime := 2; Log.interrupted := false |}.

Definition sample_entry2 : SessionLog :=
  {| Log.userName := "bo"; Log.sessionType := break;
     Log.startTime := 3; Log.endTime := 4; Log.interrupted := true |}.

(** A world whose stored log holds one record. *)
Definition sample_stored : World :=
  write_log (JSON_stringify (JArr [SessionLog_toJSON sample_entry])) sample_world.

(** A world whose stored log is the text [oops]. *)
Definition sample_malformed : World :=
  initialWorld {[ "pomodoitSessions"%string := "oops"%string ]} sample_clock.

(** The world after a successful start from idle. *)
Definition started_world (w : World) : World :=
  {| stateHook := with_timerStatus running (stateHook w);
     sessionStartHook := Some (clock w (clockReads w));
     timerRef := true;
     localStorage := localStorage w;
     alerts := alerts w;
     clock := clock w;
     clockReads := S (clockReads w) |}.

(** The world after a running timer was paused. *)
Definition paused_world (w : World) : World :=
  put_timerRef false (put_state (with_timerStatus paused (stateHook w)) w).

(** A break session one second before its end, after a work session. *)
Definition sample_break_ending : World :=
  default sample_world
    (run (repeat Tick (Z.to_nat 5400) ++ repeat Tick (Z.to_nat 299)) sample_started).

(** The update [handleDurationChange] passes to [setState]. *)
Definition adjust_duration (type : SessionType) (increment : bool) (prev : PomodoroState)
  : PomodoroState :=
  let durationChange := if increment then 60 else -60 in
  match type with
  | work =>
      {| workDuration := Z.max 60 (workDuration prev + durationChange);
         breakDuration := breakDuration prev;
         currentTime :=
           if bool_decide (currentSession prev = work)
           then Z.max 60 (workDuration prev + durationChange)
           else currentTime prev;
         currentSession := currentSession prev;
         timerStatus := timerStatus prev;
         userName := userName prev |}
  | break =>
      {| workDuration := workDuration prev;
         breakDuration := Z.max 60 (breakDuration prev + durationChange);
         currentTime :=
           if bool_decide (currentSession prev = break)
           then Z.max 60 (breakDuration prev + durationChange)
           else currentTime prev;
         currentSession := currentSession prev;
         timerStatus := timerStatus prev;
         userName := userName prev |}
  end.

(** The world after a duration button: the state is adjusted, and the
    interval is set up again when the countdown changed with it. *)
Definition configured_world (type : SessionType) (increment : bool) (w : World) : World :=
  let st' := adjust_duration type increment (stateHook w) in
  if same_deps (stateHook w) st' then put_state st' w
  else put_timerRef (bool_decide (timerStatus st' = running) && (0 <? currentTime st'))
                    (put_state st' w).

(** The world after the alert of an empty name, after a resume, after a
    tick that only counts down, and after a handler failed to write the log. *)
Definition alerted_world (w : World) : World :=
  put_alerts (alerts w ++ [validation_message]) w.

Definition resumed_world (w : World) : World :=
  put_timerRef true (put_state (with_timerStatus running (stateHook w)) w).

Definition countdown_world (w : World) : World :=
  put_timerRef true
    (put_state (with_currentTime (currentTime (stateHook w) - 1) (stateHook w)) w).

Definition failed_world (w : World) : World :=
  put_clockReads (S (clockReads w)) (put_timerRef false w).

(** Every way an event can take a mounted component from one world to the
    next. *)
Inductive transition (w : World) : Event -> World -> Prop :=
| t_alert :
    userName (stateHook w) = ""%string ->
    transition w StartPause (alerted_world w)
| t_start :
    userName (stateHook w) <> ""%string -> timerStatus (stateHook w) = idle ->
    transition w StartPause (started_world w)
| t_pause :
    userName (stateHook w) <> ""%string -> timerStatus (stateHook w) = running ->
    transition w StartPause (paused_world w)
| t_resume :
    userName (stateHook w) <> ""%string -> timerStatus (stateHook w) = paused ->
    transition w StartPause (resumed_world w)
| t_idle ev :
    ev = Reset \/ ev = Interrupt -> timerStatus (stateHook w) = idle ->
    transition w ev w
| t_close ev start logs :
    ev = Reset \/ ev = Interrupt -> timerStatus (stateHook w) <> idle ->
    sessionStartHook w = Some start -> storedLogs w = Some logs ->
    transition w ev (interrupted_world logs start w)
| t_close_failed ev :
    ev = Reset \/ ev = Interrupt -> timerStatus (stateHook w) <> idle ->
    storedLogs w = None ->
    transition w ev (failed_world w)
| t_configure type increment :
    transition w (DurationChange type increment) (configured_world type increment w)
| t_rename value :
    transition w (UserNameChange value) (put_state (with_userName value (stateHook w)) w)
| t_no_tick :
    timerRef w = false -> transition w Tick w
| t_countdown :
    timerRef w = true -> 1 < currentTime (stateHook w) ->
    transition w Tick (countdown_world w)
| t_switch start logs :
    timerRef w = true -> currentTime (stateHook w) = 1 ->
    sessionStartHook w = Some start -> storedLogs w = Some logs ->
    transition w Tick (switched_world logs start w).

(** The configured duration of the session type that is current. *)
Definition currentDuration (st : PomodoroState) : Z :=
  match currentSession st with
  | work => workDuration st
  | break => breakDuration st
  end.

(** Whole minutes, at least one, and a countdown within the current
    duration. *)
Definition well_timed (st : PomodoroState) : Prop :=
  (60 | workDuration st) /\ (60 | breakDuration st) /\
  60 <= workDuration st /\ 60 <= breakDuration st /\
  0 < currentTime st <= currentDuration st.

(** The world of a session started over the unreadable text [oops]. *)
Definition sample_unreadable : World :=
  default sample_malformed (run [UserNameChange "ana"; StartPause] sample_malformed).

(** An open session start is a reading the clock has already given. *)
Definition start_was_read (w : World) : Prop :=
  forall start, sessionStartHook w = Some start ->
  exists k, (k < clockReads w)%nat /\ start = clock w k.

(** A computation that keeps the observation [f] of the world, also when
    it throws. *)
Definition preserves {A B} (f : World -> B) (m : M A) : Prop :=
  forall w, match m w with Ret _ w' | Exn _ w' => f w' = f w end.

(** A running world that also holds a key of another feature. *)
Definition sample_themed : World :=
  put_localStorage (<["theme"%string := "dark"%string]> ∅) sample_started.

(** What the component shows of its state (lines 245, 254-259, 279-283):
    the name field, the session label, the time and the icon of the start
    and pause button. *)
Inductive Icon : Type := PauseIcon | PlayIcon.

Record View : Type := {
  userNameInput : string;
  sessionLabel : string;
  timeDisplay : string;
  startPauseIcon : Icon
}.

Definition view (state : PomodoroState) : View :=
  {| userNameInput := userName state;
     sessionLabel := if bool_decide (currentSession state = work) then "Work" else "Break";
     timeDisplay := formatTime (currentTime state);
     startPauseIcon :=
       if bool_decide (timerStatus state = running) then PauseIcon else PlayIcon |}.

(** The duration a button of [type] adjusts. *)
Definition durationOf (type : SessionType) (st : PomodoroState) : Z :=
  match type with
  | work => workDuration st
  | break => breakDuration st
  end.

(** Sessions in the order of time: each one ends no earlier than it
    starts, and starts no earlier than every session before it ended. *)
Fixpoint chronological_after (ended : list Z) (entries : list SessionLog) : Prop :=
  match entries with
  | [] => True
  | e :: rest =>
      Log.startTime e <= Log.endTime e /\
      Forall (fun t => t <= Log.startTime e) ended /\
      chronological_after (Log.endTime e :: ended) rest
  end.

Definition chronological (entries : list SessionLog) : Prop :=
  chronological_after [] entries.

(** What the component keeps true of the entries it has appended to [old],
    with [clk] for its clock. *)
Definition timeline (old : list json) (clk : nat -> Z) (w : World)
    (entries : list SessionLog) : Prop :=
  clock w = clk /\
  storedLogs w = Some (old ++ map SessionLog_toJSON entries) /\
  chronological entries /\
  Forall (fun e => exists j, (j < clockReads w)%nat /\ Log.endTime e = clk j) entries /\
  (forall start, sessionStartHook w = Some start ->
     (exists i, (i < clockReads w)%nat /\ start = clk i) /\
     Forall (fun e => Log.endTime e <= start) entries).

(** A day at the timer: a whole work and break cycle, then an interrupted
    work session. *)
Definition sample_day_events : list Event :=
  [UserNameChange "ana"; StartPause]
    ++ repeat Tick (Z.to_nat (5400 + 300)) ++ [Tick; Tick; Interrupt].

Definition sample_day : World :=
  default sample_world (run sample_day_events sample_world).

(** * Sample evaluations *)

Example formatTime_0 : formatTime 0 = "00:00"%string.
Proof. reflexivity. Qed.

Example formatTime_65 : formatTime 65 = "01:05"%string.
Proof. reflexivity. Qed.

Example formatTime_6000 : formatTime 6000 = "100:00"%string.
Proof. reflexivity. Qed.

Example formatTime_5400 : formatTime 5400 = "90:00"%string.
Proof. reflexivity. Qed.

Example parse_ex1 : JSON_parse "[1, -20 ,[true,null],{}]"
  = Some (JArr [JNum 1; JNum (-20); JArr [JBool true; JNull]; JObj []]).
Proof. vm_compute. reflexivity. Qed.

Example parse_ex2 : JSON_parse "oops" = None.
Proof. vm_compute. reflexivity. Qed.

Example parse_ex3 :
  JSON_stringify (JArr [JObj [("a"%string, JStr "x\y"); ("b"%string, JNum 1700000000000)]; JNum (-3)])
  = String "[" (String "{" (String "034" ("a" +:+ String "034" (":" +:+ String "034"
      ("x\\y" +:+ String "034" ("," +:+ String "034" ("b" +:+ String "034" ":1700000000000},-3]"))))))).
Proof. vm_compute. reflexivity. Qed.

Example parse_ex4 : forall v,
  v = JArr [JObj [("a"%string, JStr "x\y"); ("b"%string, JNum 1700000000000)]; JNum (-3)] ->
  JSON_parse (JSON_stringify v) = Some v.
Proof. intros v ->. vm_compute. reflexivity. Qed.

Example sample_run_1 :
  match run [UserNameChange "ana"; StartPause; Tick; Tick; Interrupt] sample_world with
  | Some w => (stateHook w, sessionStartHook w, timerRef w,
               option_bind _ _ JSON_parse (stored w))
  | None => (initialState, None, false, None)
  end
  = ({| workDuration := 5400; breakDuration := 300; currentTime := 5400;
        currentSession := work; timerStatus := idle; userName := "ana" |},
     None, false,
     Some (JArr [SessionLog_toJSON
                   {| Log.userName := "ana"; Log.sessionType := work;
                      Log.startTime := 1; Log.endTime := 2;
                      Log.interrupted := true |}])).
Proof. vm_compute. reflexivity. Qed.

(** * Proofs *)

(** ** Decimal numerals *)

Lemma digit_char_spec d :
  0 <= d < 10 ->
  is_digit (digit_char d) = true /\ digit_val (digit_char d) = d /\
  (digit_char d = "0"%char -> d = 0).
Proof.
  intros H.
  assert (d = 0 \/ d = 1 \/ d = 2 \/ d = 3 \/ d = 4 \/ d = 5 \/ d = 6 \/ d = 7 \/
          d = 8 \/ d = 9) as C by lia.
  repeat (destruct C as [->|C]; [repeat split; try reflexivity; discriminate|]).
  subst. repeat split; try reflexivity; discriminate.
Qed.

Lemma decimal_value_app ds c :
  decimal_value (ds ++ [c]) = 10 * decimal_value ds + digit_val c.
Proof. unfold decimal_value. rewrite fold_left_app. reflexivity. Qed.

Lemma numeral_snoc ds c :
  numeral ds -> 0 < decimal_value ds -> is_digit c = true -> numeral (ds ++ [c]).
Proof.
  intros [Hd Hn] Hpos Hc. split.
  - rewrite forallb_app, Hd. simpl. rewrite Hc. reflexivity.
  - destruct ds as [|a [|b ds]]; [contradiction| |exact Hn].
    simpl. intros ->. compute in Hpos. discriminate.
Qed.

Lemma digits_of_S fuel n :
  digits_of (S fuel) n =
    if n <? 10 then [digit_char n]
    else digits_of fuel (n / 10) ++ [digit_char (n mod 10)].
Proof. reflexivity. Qed.

Lemma digits_of_spec fuel : forall n,
  0 <= n < 2 ^ Z.of_nat (S fuel) ->
  decimal_value (digits_of (S fuel) n) = n /\ numeral (digits_of (S fuel) n).
Proof.
  induction fuel as [|fuel IH]; intros n Hn; rewrite digits_of_S;
    destruct (Z.ltb_spec n 10) as [Hlt|Hge].
  1, 3: destruct (digit_char_spec n) as (Hd & Hv & _); [lia|]; split;
    [unfold decimal_value; simpl; exact Hv
    |split; simpl; [rewrite Hd; reflexivity | exact I]].
  - change (2 ^ Z.of_nat 1) with 2 in Hn. lia.
  - assert (Hq : 0 <= n / 10 < 2 ^ Z.of_nat (S fuel)).
    { rewrite (Nat2Z.inj_succ (S fuel)), Z.pow_succ_r in Hn by lia.
      assert (0 < 2 ^ Z.of_nat (S fuel)) by (apply Z.pow_pos_nonneg; lia).
      split; [apply Z.div_pos; lia|].
      apply Z.div_lt_upper_bound; lia. }
    destruct (IH _ Hq) as (Hv & Hnum).
    destruct (digit_char_spec (n mod 10)) as (Hd & Hv' & _);
      [apply Z.mod_pos_bound; lia|].
    split.
    + rewrite decimal_value_app, Hv, Hv'. symmetry. apply Z.div_mod. lia.
    + apply numeral_snoc; auto. rewrite Hv.
      apply Z.div_str_pos. lia.
Qed.

Lemma digits_spec n :
  0 <= n -> decimal_value (digits n) = n /\ numeral (digits n).
Proof.
  intros Hn. apply digits_of_spec. split; [exact Hn|].
  destruct (Z.eq_dec n 0) as [->|Hnz]; [reflexivity|].
  rewrite Nat2Z.inj_succ, Z2Nat.id by apply Z.log2_nonneg.
  apply Z.log2_spec. lia.
Qed.

(** ** formatTime *)

Lemma string_of_list_ascii_app a b :
  string_of_list_ascii (a ++ b) = string_of_list_ascii a +:+ string_of_list_ascii b.
Proof. induction a as [|c a IH]; simpl; [reflexivity | rewrite IH; reflexivity]. Qed.

Lemma decimal_value_leading_zero ds :
  decimal_value ("0"%char :: ds) = decimal_value ds.
Proof. reflexivity. Qed.

(** Padding a numeral to two places puts one zero before a single digit
    and leaves a longer numeral as it is. *)
Lemma padStart_numeral ds :
  ds <> [] ->
  padStart (string_of_list_ascii ds) 2 "0" =
    string_of_list_ascii (match ds with [_] => "0"%char :: ds | _ => ds end).
Proof. destruct ds as [|a [|b tl]]; [congruence| |]; reflexivity. Qed.

Lemma numeral_nonempty ds : numeral ds -> ds <> [].
Proof. intros [_ H] ->. exact H. Qed.

Lemma digits_below_100 n :
  0 <= n < 100 -> (length (digits n) <= 2)%nat.
Proof.
  intros H. unfold digits.
  destruct (Z.ltb_spec n 10) as [Hlt|Hge].
  - rewrite digits_of_S. destruct (Z.ltb_spec n 10); [simpl; lia | lia].
  - assert (3 <= Z.log2 n) by (apply Z.log2_le_pow2; simpl; lia).
    destruct (Z.to_nat (Z.log2 n)) as [|f] eqn:E; [lia|].
    rewrite !digits_of_S.
    destruct (Z.ltb_spec n 10); [lia|].
    destruct (Z.ltb_spec (n / 10) 10) as [|Hq]; [simpl; lia|].
    pose proof (Z.mul_div_le n 10). lia.
Qed.

(** C9. For a non-negative count of seconds, [formatTime] is a minutes
    numeral, a colon and a seconds numeral; the minutes numeral denotes
    [seconds / 60] whatever its size, the seconds numeral [seconds mod 60];
    the seconds take exactly two digits and the minutes at least two, with a
    zero in front only to reach two digits.  Three instances are evaluated. *)
Theorem C9_formatTime (seconds : Z) :
  0 <= seconds ->
  (exists mm ss : chars,
     formatTime seconds = string_of_list_ascii (mm ++ ":"%char :: ss) /\
     forallb is_digit mm = true /\ forallb is_digit ss = true /\
     decimal_value mm = seconds / 60 /\
     decimal_value ss = seconds mod 60 /\
     (2 <= length mm)%nat /\ length ss = 2%nat /\
     ((2 < length mm)%nat -> numeral mm)) /\
  formatTime 0 = "00:00"%string /\
  formatTime 65 = "01:05"%string /\
  formatTime 6000 = "100:00"%string.
Proof.
  intros Hs. split; [|repeat split; reflexivity].
  assert (Hm : 0 <= seconds / 60) by (apply Z.div_pos; lia).
  assert (Hr : 0 <= seconds mod 60 < 60) by (apply Z.mod_pos_bound; lia).
  destruct (digits_spec _ Hm) as (Vm & Nm).
  destruct (digits_spec (seconds mod 60)) as (Vr & Nr); [lia|].
  pose proof (digits_below_100 (seconds mod 60)) as Lr.
  unfold formatTime, Number_toString, Number_toString_chars.
  rewrite Z.rem_mod_nonneg by lia.
  destruct (Z.ltb_spec (seconds / 60) 0); [lia|].
  destruct (Z.ltb_spec (seconds mod 60) 0); [lia|].
  rewrite !padStart_numeral by (apply numeral_nonempty; assumption).
  eexists _, _. split.
  { rewrite string_of_list_ascii_app. reflexivity. }
  destruct Nm as [Dm Zm], Nr as [Dr Zr].
  destruct (digits (seconds / 60)) as [|a [|b mm]]; [contradiction| |];
    (destruct (digits (seconds mod 60)) as [|c [|d ss]];
       [contradiction| |]);
    simpl in Lr |- *; repeat split;
    try rewrite decimal_value_leading_zero; auto; try lia.
  all: try (simpl in *; lia).
Qed.

Lemma C9_witness :
  0 <= 3725 /\ formatTime 3725 = "62:05"%string /\
  (exists mm ss : chars,
     formatTime 3725 = string_of_list_ascii (mm ++ ":"%char :: ss) /\
     forallb is_digit mm = true /\ forallb is_digit ss = true /\
     decimal_value mm = 3725 / 60 /\
     decimal_value ss = 3725 mod 60 /\
     (2 <= length mm)%nat /\ length ss = 2%nat /\
     ((2 < length mm)%nat -> numeral mm)).
Proof.
  split; [lia|]. split; [reflexivity|].
  apply (C9_formatTime 3725). lia.
Defined.

(** ** [JSON.parse] after [JSON.stringify] *)

Lemma span_digits_app ds rest :
  forallb is_digit ds = true ->
  match rest with c :: _ => is_digit c = false | [] => True end ->
  span_digits (ds ++ rest) = (ds, rest).
Proof.
  intros Hd Hr. induction ds as [|d ds IH]; simpl in *.
  - destruct rest as [|c rest]; [reflexivity|]. simpl. rewrite Hr. reflexivity.
  - apply andb_prop in Hd. destruct Hd as [Hd Hds].
    rewrite Hd, IH by exact Hds. reflexivity.
Qed.

Lemma digit_is_not c :
  is_digit c = true ->
  c <> "-"%char /\ is_ws c = false /\ classify c = LOther.
Proof.
  destruct c as [[] [] [] [] [] [] [] []]; intros H;
    try discriminate H; repeat split; discriminate.
Qed.

Lemma match_minus {T} (a : chars -> T) (b : T) c r :
  c <> "-"%char ->
  match c :: r with "-"%char :: r' => a r' | _ => b end = b.
Proof.
  intros H. destruct c as [[] [] [] [] [] [] [] []]; try reflexivity.
  contradiction H. reflexivity.
Qed.

Lemma parse_number_digits ds rest (negative : bool) :
  numeral ds -> delimited rest ->
  (let (ds', rest') := span_digits (ds ++ rest) in
   match ds' with
   | [] => None
   | "0"%char :: _ :: _ => None
   | _ =>
       match rest' with
       | "."%char :: _ | "e"%char :: _ | "E"%char :: _ => None
       | _ => Some (if negative then - decimal_value ds' else decimal_value ds', rest')
       end
   end) = Some (if negative then - decimal_value ds else decimal_value ds, rest).
Proof.
  intros [Hd Hn] Hr.
  rewrite span_digits_app; auto.
  2:{ destruct rest as [|c rest]; [exact I|]. destruct Hr as [->|[->| ->]]; reflexivity. }
  assert (Hrest : forall T (a b : T),
            match rest with
            | "."%char :: _ | "e"%char :: _ | "E"%char :: _ => a
            | _ => b
            end = b).
  { intros T a b. destruct rest as [|c rest]; [reflexivity|].
    destruct Hr as [->|[->| ->]]; reflexivity. }
  destruct ds as [|c [|d ds]]; [contradiction| |].
  - destruct c as [[] [] [] [] [] [] [] []]; apply Hrest.
  - destruct c as [[] [] [] [] [] [] [] []]; try apply Hrest.
    contradiction Hn. reflexivity.
Qed.

Lemma parse_number_render n rest :
  delimited rest ->
  parse_number (Number_toString_chars n ++ rest) = Some (n, rest).
Proof.
  intros Hr. unfold Number_toString_chars, parse_number.
  destruct (Z.ltb_spec n 0) as [Hneg|Hpos].
  - destruct (digits_spec (- n)) as (Hv & Hnum); [lia|].
    cbn [app]. rewrite (parse_number_digits _ _ true) by assumption.
    rewrite Hv. f_equal. f_equal. lia.
  - destruct (digits_spec n Hpos) as (Hv & Hnum).
    destruct (digits n) as [|c ds] eqn:E; [destruct Hnum as [_ []]|].
    assert (Hc : is_digit c = true).
    { destruct Hnum as [Hd _]. simpl in Hd. apply andb_prop in Hd. tauto. }
    cbn [app]. rewrite match_minus by (apply digit_is_not, Hc).
    change (c :: ds ++ rest) with ((c :: ds) ++ rest).
    rewrite (parse_number_digits _ _ false) by assumption.
    rewrite Hv. reflexivity.
Qed.

Lemma parse_chars_quote_char c tail :
  parse_chars (quote_char c ++ tail) =
    match parse_chars tail with
    | Some (s, r) => Some (c :: s, r)
    | None => None
    end.
Proof. destruct c as [[] [] [] [] [] [] [] []]; reflexivity. Qed.

Lemma parse_chars_quote_body s rest :
  parse_chars (quote_body s ++ "034"%char :: rest) = Some (s, rest).
Proof.
  induction s as [|c s IH]; [reflexivity|].
  unfold quote_body in *. cbn [flat_map]. rewrite <- app_assoc.
  rewrite parse_chars_quote_char, IH. reflexivity.
Qed.

(** Induction over JSON values, with the hypothesis for every element of an
    array and every member of an object. *)
Section json_induction.
Variable P : json -> Prop.
Hypothesis HNull : P JNull.
Hypothesis HBool : forall b, P (JBool b).
Hypothesis HNum : forall n, P (JNum n).
Hypothesis HStr : forall s, P (JStr s).
Hypothesis HArr : forall elems, Forall P elems -> P (JArr elems).
Hypothesis HObj : forall members, Forall (fun m => P (snd m)) members -> P (JObj members).

Fixpoint json_induction (v : json) : P v :=
  match v with
  | JNull => HNull
  | JBool b => HBool b
  | JNum n => HNum n
  | JStr s => HStr s
  | JArr elems =>
      HArr elems
        ((fix all (l : list json) : Forall P l :=
            match l with
            | [] => @List.Forall_nil _ P
            | x :: l' => @List.Forall_cons _ P x l' (json_induction x) (all l')
            end) elems)
  | JObj members =>
      HObj members
        ((fix all (l : list (string * json)) : Forall (fun m => P (snd m)) l :=
            match l with
            | [] => @List.Forall_nil _ _
            | m :: l' => @List.Forall_cons _ _ m l' (json_induction (snd m)) (all l')
            end) members)
  end.
End json_induction.

Lemma digit_head c : is_digit c = true -> In c head_chars.
Proof.
  destruct c as [[] [] [] [] [] [] [] []]; intros H; try discriminate H;
    simpl; tauto.
Qed.

Lemma render_head v : exists c tl, render v = c :: tl /\ In c head_chars.
Proof.
  destruct v as [|[]|n|s|l|ms]; try (eexists _, _; split; [reflexivity|simpl; tauto]).
  cbn [render]. unfold Number_toString_chars.
  destruct (Z.ltb_spec n 0) as [Hn|Hn];
    [eexists _, _; split; [reflexivity|simpl; tauto]|].
  destruct (digits_spec n Hn) as (_ & Hd & Hne).
  destruct (digits n) as [|c ds]; [contradiction|].
  exists c, ds. split; [reflexivity|]. apply digit_head.
  simpl in Hd. apply andb_prop in Hd. tauto.
Qed.

Lemma head_not_ws c tl : In c head_chars -> skip_ws (c :: tl) = c :: tl.
Proof.
  intros H. simpl in H.
  repeat (destruct H as [<-|H]; [reflexivity|]). contradiction.
Qed.

Lemma head_not_close {T} (X : chars -> T) (Y : T) c tl :
  In c head_chars ->
  match c :: tl with "]"%char :: r => X r | _ => Y end = Y.
Proof.
  intros H. simpl in H.
  repeat (destruct H as [<-|H]; [reflexivity|]). contradiction.
Qed.

Lemma skip_ws_delimited rest :
  delimited rest -> rest <> [] -> skip_ws rest = rest.
Proof.
  destruct rest as [|c rest]; [congruence|].
  intros [->|[->| ->]] _; reflexivity.
Qed.

Lemma join_comma_cons p q ps :
  join_comma (p :: q :: ps) = p ++ ","%char :: join_comma (q :: ps).
Proof. reflexivity. Qed.

Lemma parse_value_number fuel n rest :
  delimited rest ->
  parse_value (S fuel) (Number_toString_chars n ++ rest) = Parsed (JNum n) rest.
Proof.
  intros Hr. pose proof (parse_number_render n rest Hr) as Hp.
  destruct (render_head (JNum n)) as (c & tl & E & Hin). cbn [render] in E.
  rewrite E in *. cbn [app parse_value] in *.
  rewrite head_not_ws by exact Hin.
  assert (Hc : classify c = LOther).
  { simpl in Hin. destruct Hin as [<-|[<-|[<-|[<-|[<-|[<-|Hin]]]]]].
    1-6: exfalso.
    1-6: unfold Number_toString_chars in E; destruct (Z.ltb_spec n 0) as [Hn|Hn];
         [discriminate E|];
         destruct (digits_spec n Hn) as (_ & Hd & _); rewrite E in Hd;
         simpl in Hd; discriminate Hd.
    repeat (destruct Hin as [<-|Hin]; [reflexivity|]). contradiction. }
  rewrite Hc, Hp. reflexivity.
Qed.

Lemma parse_elements_render (l : list json) :
  l <> [] -> Forall roundtrips l ->
  forall fuel rest,
    (2 * length (join_comma (map render l)) + 1 < fuel)%nat ->
    parse_elements fuel (join_comma (map render l) ++ "]"%char :: rest) = Parsed l rest.
Proof.
  intros Hne Hall. induction Hall as [|e l He Hl IH]; [congruence|].
  intros fuel rest Hf. destruct fuel as [|fuel]; [lia|].
  destruct l as [|e' l].
  - cbn [map join_comma] in *. cbn [parse_elements].
    rewrite He by (simpl; auto; lia). reflexivity.
  - cbn [map] in *. rewrite join_comma_cons in Hf |- *.
    rewrite length_app in Hf. cbn [length] in Hf.
    rewrite <- app_assoc. cbn [app parse_elements].
    rewrite He by (simpl; auto; lia). cbn [skip_ws is_ws].
    rewrite IH by (congruence || lia). reflexivity.
Qed.

Lemma parse_members_render (ms : list (string * json)) :
  ms <> [] -> Forall (fun m => roundtrips (snd m)) ms ->
  forall fuel rest,
    (2 * length (join_comma (map render_member ms)) + 1 < fuel)%nat ->
    parse_members fuel (join_comma (map render_member ms) ++ "}"%char :: rest)
      = Parsed ms rest.
Proof.
  intros Hne Hall. induction Hall as [|[k v] ms Hv Hms IH]; [congruence|].
  intros fuel rest Hf. destruct fuel as [|fuel]; [lia|]. simpl in Hv.
  assert (Hkey : forall tail,
            skip_ws (quote k ++ tail) = "034"%char :: quote_body (list_ascii_of_string k)
                                          ++ "034"%char :: tail).
  { intros tail. unfold quote. cbn [app skip_ws is_ws].
    rewrite <- app_assoc. reflexivity. }
  destruct ms as [|m' ms].
  - cbn [map join_comma] in *. unfold render_member in *. cbn [fst snd] in *.
    rewrite length_app in Hf. cbn [length] in Hf.
    cbn [parse_members]. rewrite <- app_assoc, Hkey, parse_chars_quote_body.
    cbn [app skip_ws is_ws].
    rewrite Hv by (simpl; auto; lia). cbn [skip_ws is_ws].
    rewrite string_of_list_ascii_of_string. reflexivity.
  - cbn [map] in *. rewrite join_comma_cons in Hf |- *.
    unfold render_member at 1. unfold render_member at 1 in Hf. cbn [fst snd] in *.
    rewrite ?length_app in Hf. cbn [length] in Hf. rewrite ?length_app in Hf.
    cbn [length] in Hf.
    cbn [parse_members]. rewrite <- !app_assoc, Hkey, parse_chars_quote_body.
    cbn [app skip_ws is_ws].
    rewrite Hv by (simpl; auto; lia). cbn [app skip_ws is_ws].
    rewrite IH by (congruence || lia).
    rewrite string_of_list_ascii_of_string. reflexivity.
Qed.

Lemma render_obj members :
  render (JObj members) =
    "{"%char :: join_comma (map render_member members) ++ ["}"%char].
Proof. reflexivity. Qed.

Theorem parse_render (v : json) : roundtrips v.
Proof.
  induction v as [|b|n|s|elems IH|members IH] using json_induction;
    intros fuel rest Hr Hf; (destruct fuel as [|fuel]; [lia|]).
  - reflexivity.
  - destruct b; reflexivity.
  - apply parse_value_number, Hr.
  - cbn [render]. unfold quote. cbn [app parse_value skip_ws is_ws classify].
    rewrite <- app_assoc. cbn [app]. rewrite parse_chars_quote_body.
    rewrite string_of_list_ascii_of_string. reflexivity.
  - cbn [render] in *. cbn [length] in Hf. rewrite length_app in Hf. cbn [length] in Hf.
    cbn [app parse_value skip_ws is_ws classify]. rewrite <- app_assoc. cbn [app].
    destruct elems as [|e elems]; [reflexivity|].
    destruct (render_head e) as (c & tl & E & Hin).
    assert (Hj : exists tl', join_comma (map render (e :: elems)) = c :: tl').
    { destruct elems; cbn [map join_comma]; rewrite E; eexists; reflexivity. }
    destruct Hj as (tl' & Hj). rewrite Hj. cbn [app].
    rewrite head_not_ws, head_not_close by exact Hin.
    change (c :: tl' ++ "]"%char :: rest) with ((c :: tl') ++ "]"%char :: rest).
    rewrite <- Hj. rewrite parse_elements_render by (congruence || assumption || lia).
    reflexivity.
  - rewrite render_obj in *. cbn [length] in Hf. rewrite length_app in Hf.
    cbn [length] in Hf.
    cbn [app parse_value skip_ws is_ws classify]. rewrite <- app_assoc. cbn [app].
    destruct members as [|m members]; [reflexivity|].
    assert (Hj : exists tl', join_comma (map render_member (m :: members))
                             = "034"%char :: tl').
    { destruct members; cbn [map join_comma]; unfold render_member, quote;
        eexists; reflexivity. }
    destruct Hj as (tl' & Hj). rewrite Hj. cbn [app skip_ws is_ws].
    change ("034"%char :: tl' ++ "}"%char :: rest)
      with (("034"%char :: tl') ++ "}"%char :: rest).
    rewrite <- Hj. rewrite parse_members_render by (congruence || assumption || lia).
    reflexivity.
Qed.

(** [JSON.parse] gives back every value [JSON.stringify] wrote. *)
Theorem JSON_parse_stringify (v : json) : JSON_parse (JSON_stringify v) = Some v.
Proof.
  unfold JSON_parse, JSON_stringify, parse_fuel.
  rewrite list_ascii_of_string_of_list_ascii.
  rewrite <- (app_nil_r (render v)) at 2.
  rewrite parse_render by (simpl; auto; lia). reflexivity.
Qed.

(** ** The parser never runs out of fuel *)

Lemma skip_ws_length input : (length (skip_ws input) <= length input)%nat.
Proof.
  induction input as [|c input IH]; simpl; [lia|].
  destruct (is_ws c); simpl; lia.
Qed.

Lemma strip_prefix_length lit : forall input r,
  strip_prefix lit input = Some r -> (length r <= length input)%nat.
Proof.
  induction lit as [|l lit IH]; simpl; intros input r.
  - intros [= ->]. lia.
  - destruct input as [|c input]; [discriminate|].
    destruct (Ascii.eqb l c); [|discriminate].
    intros H. apply IH in H. simpl. lia.
Qed.

Ltac parse_chars_case Hc :=
  cbn;
  try match goal with |- context [code ?c <? 32] => destruct (code c <? 32) end;
  let H := fresh in
  intros H;
  first [ discriminate H
        | injection H as <- <-; simpl; lia
        | apply Hc in H; simpl in *; lia ].

Lemma parse_chars_length : forall input s r,
  parse_chars input = Some (s, r) -> (length r < length input)%nat.
Proof.
  assert (Hk : forall (n : nat) input, (length input <= n)%nat -> forall s r,
             parse_chars input = Some (s, r) -> (length r < length input)%nat).
  { induction n as [|n IH]; intros input Hn s r.
    - destruct input; [discriminate | simpl in Hn; lia].
    - assert (Hc : forall c rest, (length rest <= n)%nat ->
                match parse_chars rest with
                | Some (s', r') => Some (c :: s', r')
                | None => None
                end = Some (s, r) -> (length r < length rest)%nat).
      { intros c rest Hl. destruct (parse_chars rest) as [[s' r']|] eqn:E; [|discriminate].
        intros [= <- <-]. eapply IH; eauto. }
      destruct input as [|c input]; [discriminate|]. simpl in Hn.
      destruct c as [[] [] [] [] [] [] [] []]; try solve [parse_chars_case Hc].
      (* the backslash *)
      destruct input as [|e input]; [parse_chars_case Hc|].
      simpl in Hn.
      destruct e as [[] [] [] [] [] [] [] []]; try solve [parse_chars_case Hc].
      (* the escape by code *)
      destruct input as [|h1 [|h2 [|h3 [|h4 input]]]]; try (cbn; discriminate).
      cbn. destruct (hex4 h1 h2 h3 h4) as [n'|]; [|discriminate].
      destruct (n' <? 256); [|discriminate].
      intros H. apply Hc in H; simpl in *; lia. }
  intros input. apply (Hk (length input)). lia.
Qed.

Lemma span_digits_length : forall input ds r,
  span_digits input = (ds, r) -> length input = (length ds + length r)%nat.
Proof.
  induction input as [|c input IH]; simpl; intros ds r.
  - intros [= <- <-]. reflexivity.
  - destruct (is_digit c).
    + destruct (span_digits input) as [ds' r'] eqn:E. intros [= <- <-].
      simpl. rewrite (IH _ _ eq_refl). reflexivity.
    + intros [= <- <-]. reflexivity.
Qed.

Lemma no_fraction_inv {T} (x y : T) (rest : chars) :
  match rest with
  | "."%char :: _ | "e"%char :: _ | "E"%char :: _ => None
  | _ => Some x
  end = Some y -> x = y.
Proof.
  destruct rest as [|[[] [] [] [] [] [] [] []] rest]; intros H;
    first [discriminate H | injection H as <-; reflexivity].
Qed.

Lemma no_leading_zero_inv {T} (X : option T) (y : T) (d : ascii) (ds : chars) :
  match d :: ds with
  | [] => None
  | "0"%char :: _ :: _ => None
  | _ => X
  end = Some y -> X = Some y.
Proof.
  destruct d as [[] [] [] [] [] [] [] []], ds as [|d' ds]; intros H;
    first [discriminate H | exact H].
Qed.

Lemma parse_number_length input n r :
  parse_number input = Some (n, r) -> (length r < length input)%nat.
Proof.
  unfold parse_number.
  assert (H : forall body negative,
            (let (ds, rest) := span_digits body in
             match ds with
             | [] => None
             | "0"%char :: _ :: _ => None
             | _ =>
                 match rest with
                 | "."%char :: _ | "e"%char :: _ | "E"%char :: _ => None
                 | _ => Some (if negative : bool then - decimal_value ds
                              else decimal_value ds, rest)
                 end
             end) = Some (n, r) -> (length r < length body)%nat).
  { intros body negative. destruct (span_digits body) as [ds rest] eqn:E.
    apply span_digits_length in E. rewrite E.
    destruct ds as [|d ds]; [discriminate|]. intros H.
    apply no_leading_zero_inv, no_fraction_inv in H.
    injection H as _ <-. simpl. lia. }
  destruct input as [|c input]; [intros E; apply (H [] false) in E; exact E|].
  destruct c as [[] [] [] [] [] [] [] []];
    intros E; first [apply (H _ false) in E | apply (H _ true) in E];
    simpl in *; lia.
Qed.

(** How a match on the next character goes. *)
Lemma close_bracket_cases (l : chars) :
  (exists r, l = "]"%char :: r) \/
  (forall T (A : chars -> T) (B : T),
     match l with "]"%char :: r => A r | _ => B end = B).
Proof.
  destruct l as [|[[] [] [] [] [] [] [] []] r];
    first [left; eexists; reflexivity | right; reflexivity].
Qed.

Lemma close_brace_cases (l : chars) :
  (exists r, l = "}"%char :: r) \/
  (forall T (A : chars -> T) (B : T),
     match l with "}"%char :: r => A r | _ => B end = B).
Proof.
  destruct l as [|[[] [] [] [] [] [] [] []] r];
    first [left; eexists; reflexivity | right; reflexivity].
Qed.

Lemma quote_cases (l : chars) :
  (exists r, l = "034"%char :: r) \/
  (forall T (A : chars -> T) (B : T),
     match l with "034"%char :: r => A r | _ => B end = B).
Proof.
  destruct l as [|[[] [] [] [] [] [] [] []] r];
    first [left; eexists; reflexivity | right; reflexivity].
Qed.

Lemma colon_cases (l : chars) :
  (exists r, l = ":"%char :: r) \/
  (forall T (A : chars -> T) (B : T),
     match l with ":"%char :: r => A r | _ => B end = B).
Proof.
  destruct l as [|[[] [] [] [] [] [] [] []] r];
    first [left; eexists; reflexivity | right; reflexivity].
Qed.

Lemma comma_or_bracket_cases (l : chars) :
  (exists r, l = ","%char :: r) \/ (exists r, l = "]"%char :: r) \/
  (forall T (A A' : chars -> T) (B : T),
     match l with ","%char :: r => A r | "]"%char :: r => A' r | _ => B end = B).
Proof.
  destruct l as [|[[] [] [] [] [] [] [] []] r];
    first [ left; eexists; reflexivity
          | right; left; eexists; reflexivity
          | right; right; reflexivity ].
Qed.

Lemma comma_or_brace_cases (l : chars) :
  (exists r, l = ","%char :: r) \/ (exists r, l = "}"%char :: r) \/
  (forall T (A A' : chars -> T) (B : T),
     match l with ","%char :: r => A r | "}"%char :: r => A' r | _ => B end = B).
Proof.
  destruct l as [|[[] [] [] [] [] [] [] []] r];
    first [ left; eexists; reflexivity
          | right; left; eexists; reflexivity
          | right; right; reflexivity ].
Qed.

Lemma parsed_map_inv {A B} (f : A -> B) (p : parsed A) b r :
  parsed_map f p = Parsed b r -> exists a, p = Parsed a r /\ b = f a.
Proof. destruct p; simpl; intros [= <- <-]; eauto. Qed.

Lemma parsed_map_fuel {A B} (f : A -> B) (p : parsed A) :
  p <> OutOfFuel -> parsed_map f p <> OutOfFuel.
Proof. destruct p; simpl; congruence. Qed.

Lemma parse_well_fuelled fuel :
  well_fuelled 1 parse_value fuel /\
  well_fuelled 2 parse_elements fuel /\
  well_fuelled 2 parse_members fuel.
Proof.
  induction fuel as [|fuel (IHv & IHe & IHm)].
  { repeat split; intros; simpl in *; (discriminate || lia). }
  split; [|split]; intros input.
  - cbn [parse_value]. pose proof (skip_ws_length input) as Hws.
    destruct (skip_ws input) as [|c rest]; [split; intros; discriminate|].
    simpl in Hws.
    destruct (classify c).
    1-3: unfold literal;
      match goal with |- context [strip_prefix ?l ?i] =>
        destruct (strip_prefix l i) as [r0|] eqn:E end;
      (split; [intros a r [= <- <-]; apply strip_prefix_length in E; lia
              | intros; discriminate]) || (split; intros; discriminate).
    + destruct (parse_chars rest) as [[s r0]|] eqn:E; [|split; intros; discriminate].
      apply parse_chars_length in E.
      split; [intros a r [= <- <-]; lia | intros; discriminate].
    + pose proof (skip_ws_length rest) as Hws'.
      destruct (close_bracket_cases (skip_ws rest)) as [[r0 E]|E]; rewrite E.
      * rewrite E in Hws'. simpl in Hws'.
        split; [intros a r [= <- <-]; lia | intros; discriminate].
      * destruct (IHe rest) as [Hlen Hfuel]. split.
        -- intros a r (vs & Hp & _)%parsed_map_inv. apply Hlen in Hp. lia.
        -- intros Hf. apply parsed_map_fuel, Hfuel. lia.
    + pose proof (skip_ws_length rest) as Hws'.
      destruct (close_brace_cases (skip_ws rest)) as [[r0 E]|E]; rewrite E.
      * rewrite E in Hws'. simpl in Hws'.
        split; [intros a r [= <- <-]; lia | intros; discriminate].
      * destruct (IHm rest) as [Hlen Hfuel]. split.
        -- intros a r (vs & Hp & _)%parsed_map_inv. apply Hlen in Hp. lia.
        -- intros Hf. apply parsed_map_fuel, Hfuel. lia.
    + destruct (parse_number (c :: rest)) as [[n r0]|] eqn:E;
        [|split; intros; discriminate].
      apply parse_number_length in E. simpl in E.
      split; [intros a r [= <- <-]; lia | intros; discriminate].
  - cbn [parse_elements]. destruct (IHv input) as [Hlen Hfuel].
    destruct (parse_value fuel input) as [v rest| |] eqn:Ev.
    2: split; intros; discriminate.
    2: split; [intros; discriminate | intros Hf _; apply Hfuel; [lia | reflexivity]].
    specialize (Hlen _ _ eq_refl). pose proof (skip_ws_length rest) as Hws.
    destruct (comma_or_bracket_cases (skip_ws rest)) as [[r0 E]|[[r0 E]|E]]; rewrite E.
    + rewrite E in Hws. simpl in Hws. destruct (IHe r0) as [Hlen' Hfuel']. split.
      * intros a r (vs & Hp & _)%parsed_map_inv. apply Hlen' in Hp. lia.
      * intros Hf. apply parsed_map_fuel, Hfuel'. lia.
    + rewrite E in Hws. simpl in Hws.
      split; [intros a r [= <- <-]; lia | intros; discriminate].
    + split; intros; discriminate.
  - cbn [parse_members]. pose proof (skip_ws_length input) as Hws.
    destruct (quote_cases (skip_ws input)) as [[rest E]|E]; rewrite E;
      [|split; intros; discriminate].
    rewrite E in Hws. simpl in Hws.
    destruct (parse_chars rest) as [[k rest1]|] eqn:Ek; [|split; intros; discriminate].
    apply parse_chars_length in Ek. pose proof (skip_ws_length rest1) as Hws1.
    destruct (colon_cases (skip_ws rest1)) as [[rest2 E1]|E1]; rewrite E1;
      [|split; intros; discriminate].
    rewrite E1 in Hws1. simpl in Hws1.
    destruct (IHv rest2) as [Hlen Hfuel].
    destruct (parse_value fuel rest2) as [v rest3| |] eqn:Ev.
    2: split; intros; discriminate.
    2: split; [intros; discriminate | intros Hf _; apply Hfuel; [lia | reflexivity]].
    specialize (Hlen _ _ eq_refl). pose proof (skip_ws_length rest3) as Hws3.
    destruct (comma_or_brace_cases (skip_ws rest3)) as [[r0 E3]|[[r0 E3]|E3]]; rewrite E3.
    + rewrite E3 in Hws3. simpl in Hws3. destruct (IHm r0) as [Hlen' Hfuel']. split.
      * intros a r (vs & Hp & _)%parsed_map_inv. apply Hlen' in Hp. lia.
      * intros Hf. apply parsed_map_fuel, Hfuel'. lia.
    + rewrite E3 in Hws3. simpl in Hws3.
      split; [intros a r [= <- <-]; lia | intros; discriminate].
    + split; intros; discriminate.
Qed.

(** The fuel [JSON_parse] gives the parser is enough: [None] is a syntax
    error, never a lack of fuel. *)
Theorem parse_value_fuel (input : chars) :
  parse_value (parse_fuel input) input <> OutOfFuel.
Proof.
  destruct (parse_well_fuelled (parse_fuel input)) as (Hv & _).
  apply Hv. unfold parse_fuel. lia.
Qed.

(** ** Rendering *)

Ltac munfold :=
  unfold startNewSession, mbind, mret, M_bind, M_ret, throw, setState, setSessionStart, setInterval,
    clearInterval, alert, Date_now, localStorage_getItem, localStorage_setItem in *.

Lemma same_deps_refl st : same_deps st st = true.
Proof. unfold same_deps. rewrite Z.eqb_refl, bool_decide_eq_true_2; auto. Qed.

Lemma rerender_same fuel rendered w :
  same_deps rendered (stateHook w) = true -> rerender fuel rendered w = Settled w.
Proof. intros H. destruct fuel; simpl; rewrite H; reflexivity. Qed.

(** When the countdown is not at zero the effect only arms or leaves the
    interval. *)
Lemma rerender_nonzero fuel rendered w :
  currentTime (stateHook w) <> 0 ->
  rerender (S fuel) rendered w =
    if same_deps rendered (stateHook w) then Settled w
    else Settled (put_timerRef (bool_decide (timerStatus (stateHook w) = running)
                                && (0 <? currentTime (stateHook w))) w).
Proof.
  intros Hnz. simpl. destruct (same_deps rendered (stateHook w)) eqn:E; [reflexivity|].
  unfold cleanup, effect. munfold. simpl.
  destruct (bool_decide (timerStatus (stateHook w) = running)
            && (0 <? currentTime (stateHook w))) eqn:B.
  - rewrite rerender_same; [reflexivity|]. apply same_deps_refl.
  - destruct (Z.eqb_spec (currentTime (stateHook w)) 0); [contradiction|].
    rewrite rerender_same; [reflexivity|]. apply same_deps_refl.
Qed.

(** The first render settles in [initialWorld]. *)
Lemma mount_settled storage clk : mount storage clk = Settled (initialWorld storage clk).
Proof. reflexivity. Qed.

(** ** What [saveSessionToLocalStorage] returns *)

Lemma saveSessionToLocalStorage_eq session w :
  saveSessionToLocalStorage session w =
    match storedLogs w with
    | Some logs =>
        Ret tt (write_log (JSON_stringify (JArr (logs ++ [SessionLog_toJSON session]))) w)
    | None =>
        match stored w with
        | Some text =>
            match JSON_parse text with
            | None => Exn SyntaxError w
            | Some _ => Exn TypeError w
            end
        | None => Exn TypeError w
        end
    end.
Proof.
  unfold saveSessionToLocalStorage, storedLogs, stored, JSON_parse_or_throw, Array_push.
  munfold. simpl.
  destruct (localStorage w !! "pomodoitSessions"%string) as [text|]; [|reflexivity].
  destruct (String.eqb text ""); [reflexivity|].
  destruct (JSON_parse text) as [[]|]; reflexivity.
Qed.

Lemma saveSessionToLocalStorage_ok session w logs :
  storedLogs w = Some logs ->
  saveSessionToLocalStorage session w =
    Ret tt (write_log (JSON_stringify (JArr (logs ++ [SessionLog_toJSON session]))) w).
Proof. intros H. rewrite saveSessionToLocalStorage_eq, H. reflexivity. Qed.

Lemma saveSessionToLocalStorage_cases session w :
  (exists text, saveSessionToLocalStorage session w = Ret tt (write_log text w)) \/
  (exists e, saveSessionToLocalStorage session w = Exn e w).
Proof.
  rewrite saveSessionToLocalStorage_eq.
  destruct (storedLogs w); [left; eauto|right].
  destruct (stored w) as [text|]; [destruct (JSON_parse text)|]; eauto.
Qed.

(** ** Closing a session *)

Lemma handleEndSession_none st wasInterrupted w :
  handleEndSession st None wasInterrupted w = Ret tt w.
Proof. reflexivity. Qed.

Lemma handleEndSession_ok st start wasInterrupted w logs :
  start <> 0 -> storedLogs w = Some logs ->
  handleEndSession st (Some start) wasInterrupted w =
    Ret tt (put_sessionStart None
              (write_log (JSON_stringify
                            (JArr (logs ++ [SessionLog_toJSON
                                              (closed_entry st start wasInterrupted w)])))
                         (put_clockReads (S (clockReads w)) w))).
Proof.
  intros Hs Hl. unfold handleEndSession.
  destruct (Z.eqb_spec start 0); [contradiction|].
  unfold mbind, M_bind, Date_now at 1.
  rewrite (saveSessionToLocalStorage_ok _ _ logs) by exact Hl.
  reflexivity.
Qed.

Lemma handleEndSession_cases st start wasInterrupted w :
  start <> 0 ->
  (exists text, handleEndSession st (Some start) wasInterrupted w =
     Ret tt (put_sessionStart None (write_log text (put_clockReads (S (clockReads w)) w))))
  \/ (exists e, handleEndSession st (Some start) wasInterrupted w =
        Exn e (put_clockReads (S (clockReads w)) w)).
Proof.
  intros Hs. unfold handleEndSession.
  destruct (Z.eqb_spec start 0); [contradiction|].
  unfold mbind, M_bind.
  change (Date_now w) with (Ret (clock w (clockReads w)) (put_clockReads (S (clockReads w)) w)).
  cbv beta iota.
  destruct (saveSessionToLocalStorage_cases
              (closed_entry st start wasInterrupted w)
              (put_clockReads (S (clockReads w)) w)) as [[text E]|[e E]];
    unfold closed_entry in E; rewrite E; [left|right]; eauto.
Qed.

(** ** The invariant *)

#[local] Arguments rerender : simpl never.
#[local] Arguments handleEndSession : simpl never.

(** When the countdown is at zero the effect closes the session and
    switches to the next one. *)
Lemma rerender_zero fuel rendered w :
  currentTime (stateHook w) = 0 ->
  same_deps rendered (stateHook w) = false ->
  rerender (S fuel) rendered w =
    match (handleEndSession (stateHook w) (sessionStartHook w) false;;
           handleSessionSwitch) (put_timerRef false (put_timerRef false w)) with
    | Ret _ w' => rerender fuel (stateHook w) w'
    | Exn e w' => Unmounted e w'
    end.
Proof.
  intros Hz Hd. unfold rerender; fold rerender. rewrite Hd. unfold cleanup, effect.
  rewrite Hz. rewrite andb_false_r. simpl.
  unfold mbind, M_bind, clearInterval. simpl. reflexivity.
Qed.

Lemma same_deps_eq a b :
  timerStatus a = timerStatus b -> currentTime a = currentTime b -> same_deps a b = true.
Proof.
  intros H1 H2. unfold same_deps. rewrite H1, H2, Z.eqb_refl, bool_decide_eq_true_2; auto.
Qed.

Ltac inv_done := intros [= <-]; constructor; simpl; auto; try congruence; try lia.

Ltac end_session_cases Hs text e E :=
  match goal with
  | |- context [handleEndSession ?st (Some ?s) ?b ?w] =>
      destruct (handleEndSession_cases st s b w Hs) as [[text E]|[e E]]; rewrite E
  end.

Ltac bool_cases :=
  repeat match goal with
  | |- context [bool_decide ?P] => destruct (bool_decide_reflect P)
  | |- context [Z.eqb ?a ?b] => destruct (Z.eqb_spec a b)
  | |- context [Z.ltb ?a ?b] => destruct (Z.ltb_spec a b)
  end; simpl; try lia; try congruence.

Lemma step_StartPause_Inv w w' :
  Inv w -> mounted (step StartPause w) = Some w' -> Inv w'.
Proof.
  intros [Hw Hb Ht Hi Ho Htm Hc].
  destruct w as [[wd bd ct cs ts un] ss tm ls al clk n]; simpl in *.
  unfold step, dispatch, effect_runs, handleStartPause. simpl.
  destruct (String.eqb un "").
  - munfold. rewrite rerender_same by apply same_deps_refl. inv_done.
  - destruct (bool_decide_reflect (ts = running)) as [->|Hr].
    + munfold. simpl. rewrite rerender_nonzero by (simpl; lia).
      unfold same_deps. simpl. inv_done.
    + destruct (decide (ts = idle)) as [->|Hid].
      * destruct Hi as (-> & -> & -> & ->); auto.
        munfold. simpl. rewrite rerender_nonzero by (simpl; lia).
        unfold same_deps. simpl. bool_cases. inv_done. intros _. eauto.
      * destruct Ho as (start & -> & Hs); auto.
        destruct (Z.eqb_spec start 0); [contradiction|].
        munfold. simpl. rewrite rerender_nonzero by (simpl; lia).
        unfold same_deps. simpl. rewrite bool_decide_eq_false_2 by congruence.
        simpl. bool_cases. inv_done. intros _. eauto.
Qed.

Lemma step_Reset_Inv w w' :
  Inv w -> mounted (step Reset w) = Some w' -> Inv w'.
Proof.
  intros [Hw Hb Ht Hi Ho Htm Hc].
  destruct w as [[wd bd ct cs ts un] ss tm ls al clk n]; simpl in *.
  unfold step, dispatch, effect_runs, handleReset. simpl.
  destruct (decide (ts = idle)) as [->|Hid].
  - destruct Hi as (-> & -> & -> & ->); auto.
    munfold. simpl. rewrite rerender_same by apply same_deps_refl. inv_done.
  - destruct Ho as (start & -> & Hs); auto.
    replace (bool_decide (ts = running) || bool_decide (ts = paused)) with true
      by (destruct ts; try contradiction; reflexivity).
    unfold mbind, M_bind, clearInterval. simpl.
    end_session_cases Hs text e E.
    + munfold. simpl. rewrite rerender_nonzero by (simpl; lia).
      unfold same_deps. simpl. rewrite bool_decide_eq_false_2 by congruence.
      simpl. inv_done.
    + rewrite rerender_same by apply same_deps_refl. inv_done. intros _. eauto.
Qed.

Lemma step_Interrupt_Inv w w' :
  Inv w -> mounted (step Interrupt w) = Some w' -> Inv w'.
Proof.
  intros [Hw Hb Ht Hi Ho Htm Hc].
  destruct w as [[wd bd ct cs ts un] ss tm ls al clk n]; simpl in *.
  unfold step, dispatch, effect_runs, handleInterrupt. simpl.
  destruct (decide (ts = idle)) as [->|Hid].
  - munfold. simpl. rewrite rerender_same by apply same_deps_refl. inv_done.
  - destruct Ho as (start & -> & Hs); auto.
    rewrite bool_decide_eq_true_2 by assumption.
    unfold mbind, M_bind, clearInterval. simpl.
    end_session_cases Hs text e E.
    + munfold. simpl. rewrite rerender_nonzero by (simpl; lia).
      unfold same_deps. simpl. rewrite bool_decide_eq_false_2 by congruence.
      simpl. inv_done.
    + rewrite rerender_same by apply same_deps_refl. inv_done. intros _. eauto.
Qed.

Lemma step_DurationChange_Inv type increment w w' :
  Inv w -> mounted (step (DurationChange type increment) w) = Some w' -> Inv w'.
Proof.
  intros [Hw Hb Ht Hi Ho Htm Hc].
  destruct w as [[wd bd ct cs ts un] ss tm ls al clk n]; simpl in *.
  unfold step, dispatch, effect_runs, handleDurationChange. munfold. simpl.
  destruct type; simpl;
    (rewrite rerender_nonzero by (simpl; bool_cases));
    match goal with |- context [same_deps ?a ?b] => destruct (same_deps a b) eqn:E end;
    simpl; inv_done.
  all: try (bool_cases; fail).
  all: try (intros ->; destruct Hi as (-> & -> & -> & ->); auto; simpl; repeat split; auto; bool_cases; fail).
  all: try (intros [[= ->] _]%andb_prop; reflexivity).
  all: try (intros [H _]%andb_prop; revert H; bool_cases).
Qed.

Lemma step_UserNameChange_Inv value w w' :
  Inv w -> mounted (step (UserNameChange value) w) = Some w' -> Inv w'.
Proof.
  intros [Hw Hb Ht Hi Ho Htm Hc].
  destruct w as [[wd bd ct cs ts un] ss tm ls al clk n]; simpl in *.
  unfold step, dispatch, effect_runs, handleUserNameChange. munfold. simpl.
  rewrite rerender_same by (apply same_deps_eq; reflexivity). inv_done.
Qed.

Lemma step_Tick_Inv w w' :
  Inv w -> mounted (step Tick w) = Some w' -> Inv w'.
Proof.
  intros [Hw Hb Ht Hi Ho Htm Hc].
  destruct w as [[wd bd ct cs ts un] ss tm ls al clk n]; simpl in *.
  unfold step. simpl. destruct tm; [|inv_done].
  specialize (Htm eq_refl). subst ts.
  unfold dispatch, effect_runs, tick. munfold. simpl.
  destruct (Z.eq_dec (ct - 1) 0) as [Hz|Hz].
  - rewrite rerender_zero; simpl; auto.
    2:{ unfold same_deps; simpl. bool_cases. }
    destruct Ho as (start & -> & Hs); [congruence|].
    unfold mbind at 1. unfold M_bind at 1.
    end_session_cases Hs text e E; [|discriminate].
    unfold handleSessionSwitch. munfold. simpl.
    rewrite rerender_nonzero by (simpl; bool_cases).
    unfold same_deps. simpl.
    replace (ct - 1 =? _) with false by (symmetry; apply Z.eqb_neq; bool_cases).
    simpl.
    intros [= <-]. constructor; simpl; auto; try congruence.
    + bool_cases.
    + intros _. eauto.
  - rewrite rerender_nonzero by (simpl; lia).
    unfold same_deps. simpl. bool_cases. inv_done. 
Qed.

Theorem step_Inv ev w w' : Inv w -> mounted (step ev w) = Some w' -> Inv w'.
Proof.
  destruct ev;
    [ apply step_StartPause_Inv | apply step_Reset_Inv | apply step_Interrupt_Inv
    | apply step_DurationChange_Inv | apply step_UserNameChange_Inv
    | apply step_Tick_Inv ].
Qed.

Lemma run_Inv evs : forall w w', Inv w -> run evs w = Some w' -> Inv w'.
Proof.
  induction evs as [|ev evs IH]; simpl; intros w w' Hw.
  - intros [= <-]. exact Hw.
  - destruct (mounted (step ev w)) as [w1|] eqn:E; [|discriminate].
    apply IH. eapply step_Inv; eauto.
Qed.

Lemma initialWorld_Inv storage clk : (forall n, clk n <> 0) -> Inv (initialWorld storage clk).
Proof. intros H. constructor; simpl; auto; try lia; try congruence. Qed.

Lemma reachable_Inv w : reachable w -> Inv w.
Proof.
  intros (storage & clk & evs & Hclk & Hrun).
  eapply run_Inv; [|exact Hrun]. apply initialWorld_Inv, Hclk.
Qed.

(** ** Configuring, starting and resetting *)

(** C3. [handleDurationChange(type, increment)] in any world: the duration of
    [type] becomes [max 60 (old + 60)] or [max 60 (old - 60)], the other
    duration is unchanged, and [currentTime] becomes the new duration when
    [type] is the current session type and is unchanged otherwise, whatever
    the timer status; nothing else of the state changes and no session is
    opened or closed. *)
Theorem C3_configure (type : SessionType) (increment : bool) (w : World) :
  let st := stateHook w in
  let durationChange := if increment then 60 else -60 in
  let old := match type with work => workDuration st | break => breakDuration st end in
  let adjusted := Z.max 60 (old + durationChange) in
  exists w',
    step (DurationChange type increment) w = Settled w' /\
    match type with
    | work => workDuration (stateHook w') = adjusted /\
              breakDuration (stateHook w') = breakDuration st
    | break => breakDuration (stateHook w') = adjusted /\
               workDuration (stateHook w') = workDuration st
    end /\
    currentTime (stateHook w') =
      (if decide (type = currentSession st) then adjusted else currentTime st) /\
    currentSession (stateHook w') = currentSession st /\
    timerStatus (stateHook w') = timerStatus st /\
    userName (stateHook w') = userName st /\
    sessionStartHook w' = sessionStartHook w /\
    localStorage w' = localStorage w.
Proof.
  destruct w as [[wd bd ct cs ts un] ss tm ls al clk n]; simpl.
  unfold step, dispatch, effect_runs, handleDurationChange. munfold. simpl.
  destruct type, cs; simpl;
    first [ rewrite rerender_same by (apply same_deps_eq; reflexivity)
          | rewrite rerender_nonzero by (simpl; lia);
            match goal with |- context [same_deps ?a ?b] => destruct (same_deps a b) end ];
    eexists; (split; [reflexivity|]); simpl; repeat split; reflexivity.
Qed.

(** C5. With an empty [userName], [handleStartPause] shows the validation
    alert and changes nothing else: the whole state (so the status too) and
    the open session start are as before. *)
Theorem C5_start_needs_userName (w : World) :
  userName (stateHook w) = ""%string ->
  exists w',
    step StartPause w = Settled w' /\
    alerts w' = alerts w ++ [validation_message] /\
    stateHook w' = stateHook w /\
    sessionStartHook w' = sessionStartHook w /\
    timerRef w' = timerRef w /\
    localStorage w' = localStorage w /\
    clockReads w' = clockReads w.
Proof.
  intros Hn. unfold step, dispatch, effect_runs, handleStartPause.
  rewrite Hn. simpl. munfold.
  rewrite rerender_same by apply same_deps_refl.
  eexists. split; [reflexivity|]. simpl. repeat split; reflexivity.
Qed.

Lemma C5_witness :
  userName (stateHook sample_world) = ""%string /\
  exists w',
    step StartPause sample_world = Settled w' /\
    alerts w' = alerts sample_world ++ [validation_message] /\
    stateHook w' = stateHook sample_world /\
    sessionStartHook w' = sessionStartHook sample_world /\
    timerRef w' = timerRef sample_world /\
    localStorage w' = localStorage sample_world /\
    clockReads w' = clockReads sample_world.
Proof. split; [reflexivity | apply (C5_start_needs_userName sample_world); reflexivity]. Defined.

(** C6. In every reachable state a session start is open exactly when the
    timer is running or paused, and none is open exactly when it is idle. *)
Theorem C6_sessionStart_open_iff_in_progress (w : World) :
  reachable w ->
  (sessionStartHook w <> None <->
     timerStatus (stateHook w) = running \/ timerStatus (stateHook w) = paused) /\
  (sessionStartHook w = None <-> timerStatus (stateHook w) = idle).
Proof.
  intros Hr. apply reachable_Inv in Hr. destruct Hr as [_ _ _ Hi Ho _ _].
  destruct (timerStatus (stateHook w)) eqn:E.
  - destruct Hi as (-> & _); auto. split; split; auto; try congruence.
    intros [|]; discriminate.
  - destruct Ho as (start & -> & _); [discriminate|].
    split; split; auto; try congruence; discriminate.
  - destruct Ho as (start & -> & _); [discriminate|].
    split; split; auto; try congruence; discriminate.
Qed.

Lemma sample_clock_nonzero n : sample_clock n <> 0.
Proof. unfold sample_clock. lia. Qed.

Lemma sample_running_reachable : reachable sample_running.
Proof.
  exists ∅, sample_clock, [UserNameChange "ana"; StartPause; Tick].
  split; [exact sample_clock_nonzero | vm_compute; reflexivity].
Qed.

Lemma C6_witness :
  reachable sample_running /\
  (sessionStartHook sample_running <> None <->
     timerStatus (stateHook sample_running) = running \/
     timerStatus (stateHook sample_running) = paused) /\
  (sessionStartHook sample_running = None <->
     timerStatus (stateHook sample_running) = idle).
Proof.
  assert (Hr : reachable sample_running).
  { exists ∅, sample_clock, [UserNameChange "ana"; StartPause; Tick].
    split; [intros n; unfold sample_clock; lia | vm_compute; reflexivity]. }
  split; [exact Hr|].
  apply (C6_sessionStart_open_iff_in_progress sample_running Hr).
Defined.

(** C7. In every reachable idle state, [handleReset] changes nothing at all:
    no entry is written and the world after it is the world before. *)
Theorem C7_reset_idle_noop (w : World) :
  reachable w -> timerStatus (stateHook w) = idle ->
  step Reset w = Settled w /\ run [Reset; Reset] w = Some w.
Proof.
  intros Hr Hid. apply reachable_Inv in Hr. destruct Hr as [_ _ _ Hi _ _ _].
  destruct (Hi Hid) as (Hs & Hc & Ht & Htm).
  assert (E : step Reset w = Settled w).
  { destruct w as [[wd bd ct cs ts un] ss tm ls al clk n]; simpl in *. subst.
    unfold step, dispatch, effect_runs, handleReset. munfold. simpl.
    rewrite rerender_same by apply same_deps_refl. reflexivity. }
  split; [exact E|]. cbn [run]. rewrite E. cbn [mounted]. rewrite E. reflexivity.
Qed.

Lemma sample_idle_reachable : reachable sample_idle.
Proof.
  exists ∅, sample_clock,
    [UserNameChange "ana"; StartPause; Tick; DurationChange work true; Interrupt].
  split; [exact sample_clock_nonzero | vm_compute; reflexivity].
Qed.

Lemma C7_witness :
  reachable sample_idle /\ timerStatus (stateHook sample_idle) = idle /\
  step Reset sample_idle = Settled sample_idle /\
  run [Reset; Reset] sample_idle = Some sample_idle.
Proof.
  assert (Hr : reachable sample_idle).
  { exists ∅, sample_clock,
      [UserNameChange "ana"; StartPause; Tick; DurationChange work true; Interrupt].
    split; [intros n; unfold sample_clock; lia | vm_compute; reflexivity]. }
  assert (Hi : timerStatus (stateHook sample_idle) = idle) by (vm_compute; reflexivity).
  split; [exact Hr|]. split; [exact Hi|].
  apply (C7_reset_idle_noop sample_idle Hr Hi).
Defined.

(** ** Appending to the stored log *)

Lemma JSON_stringify_array_nonempty elems :
  String.eqb (JSON_stringify (JArr elems)) "" = false.
Proof. reflexivity. Qed.

Lemma stored_write_log text w : stored (write_log text w) = Some text.
Proof. unfold stored, write_log. simpl. apply lookup_insert_eq. Qed.

Lemma storedLogs_write_log elems w :
  storedLogs (write_log (JSON_stringify (JArr elems)) w) = Some elems.
Proof.
  unfold storedLogs. rewrite stored_write_log, JSON_stringify_array_nonempty.
  rewrite JSON_parse_stringify. reflexivity.
Qed.

Lemma SessionType_toString_inj a b :
  SessionType_toString a = SessionType_toString b -> a = b.
Proof. destruct a, b; simpl; congruence. Qed.

Lemma SessionLog_toJSON_inj (a b : SessionLog) :
  SessionLog_toJSON a = SessionLog_toJSON b -> a = b.
Proof.
  destruct a, b. unfold SessionLog_toJSON. simpl.
  intros [= -> Ht -> -> ->]. apply SessionType_toString_inj in Ht. subst. reflexivity.
Qed.



(** ** The stored log only grows *)

Lemma extends_refl w : extends w w.
Proof. intros old H. exists []. rewrite app_nil_r. exact H. Qed.

Lemma extends_trans w1 w2 w3 : extends w1 w2 -> extends w2 w3 -> extends w1 w3.
Proof.
  intros H12 H23 old H1. destruct (H12 _ H1) as (n1 & H2).
  destruct (H23 _ H2) as (n2 & H3). exists (n1 ++ n2).
  rewrite app_assoc. exact H3.
Qed.

Lemma extends_same_storage w w' : localStorage w' = localStorage w -> extends w w'.
Proof.
  intros E old H. exists []. rewrite app_nil_r, <- H.
  unfold storedLogs, stored. rewrite E. reflexivity.
Qed.

Lemma appending_ret {A} (a : A) : appending (mret a).
Proof. intros w. apply extends_refl. Qed.

Lemma appending_bind {A B} (m : M A) (k : A -> M B) :
  appending m -> (forall a, appending (k a)) -> appending (m ≫= k).
Proof.
  intros Hm Hk w. unfold mbind, M_bind. specialize (Hm w).
  destruct (m w) as [a w1|e w1]; [|exact Hm].
  specialize (Hk a w1). destruct (k a w1); eapply extends_trans; eauto.
Qed.

Lemma appending_setState f : appending (setState f).
Proof. intros w. apply extends_same_storage. reflexivity. Qed.

Lemma appending_setSessionStart v : appending (setSessionStart v).
Proof. intros w. apply extends_same_storage. reflexivity. Qed.

Lemma appending_setInterval : appending setInterval.
Proof. intros w. apply extends_same_storage. reflexivity. Qed.

Lemma appending_clearInterval : appending clearInterval.
Proof. intros w. apply extends_same_storage. reflexivity. Qed.

Lemma appending_alert message : appending (alert message).
Proof. intros w. apply extends_same_storage. reflexivity. Qed.

Lemma appending_Date_now : appending Date_now.
Proof. intros w. apply extends_same_storage. reflexivity. Qed.

Lemma appending_save session : appending (saveSessionToLocalStorage session).
Proof.
  intros w. rewrite saveSessionToLocalStorage_eq.
  destruct (storedLogs w) as [logs|] eqn:E.
  - intros old H. rewrite E in H. injection H as <-.
    eexists. apply storedLogs_write_log.
  - assert (extends w w) by apply extends_refl.
    destruct (stored w) as [text|]; [destruct (JSON_parse text)|]; assumption.
Qed.

Create HintDb appending.
#[local] Hint Resolve appending_ret appending_setState appending_setSessionStart
  appending_setInterval appending_clearInterval appending_alert appending_Date_now
  appending_save : appending.

Ltac appending_tac :=
  repeat first
    [ solve [auto with appending]
    | match goal with
      | |- appending (match ?x with _ => _ end) => destruct x
      | |- appending (if ?b then _ else _) => destruct b
      end
    | apply appending_bind; [|intros ?] ].

Lemma appending_handleEndSession st ss b : appending (handleEndSession st ss b).
Proof. unfold handleEndSession. appending_tac. Qed.

Lemma appending_handleSessionSwitch : appending handleSessionSwitch.
Proof. unfold handleSessionSwitch, startNewSession. appending_tac. Qed.

#[local] Hint Resolve appending_handleEndSession appending_handleSessionSwitch : appending.

Lemma appending_effect st ss : appending (cleanup;; effect st ss).
Proof. unfold cleanup, effect. appending_tac. Qed.

Lemma appending_handlers st ss :
  appending (handleStartPause st ss) /\ appending (handleReset st ss) /\
  appending (handleInterrupt st ss) /\
  (forall type increment, appending (handleDurationChange type increment)) /\
  (forall value, appending (handleUserNameChange value)) /\ appending tick.
Proof.
  repeat split; intros;
    unfold handleStartPause, handleReset, handleInterrupt, handleDurationChange,
      handleUserNameChange, tick, startNewSession; appending_tac.
Qed.

Lemma rerender_extends fuel : forall rendered w w',
  world_of (rerender fuel rendered w) = Some w' -> extends w w'.
Proof.
  induction fuel as [|fuel IH]; intros rendered w w'; unfold rerender; fold rerender;
    destruct (same_deps rendered (stateHook w)).
  1-3: simpl; intros [= <-]; try apply extends_refl.
  pose proof (appending_effect (stateHook w) (sessionStartHook w) w) as He.
  destruct ((cleanup;; effect (stateHook w) (sessionStartHook w)) w) as [[] w1|e w1].
  - intros H. eapply extends_trans; [exact He|]. eapply IH, H.
  - simpl. intros [= <-]. exact He.
Qed.

Lemma dispatch_extends handler w w' :
  (forall st ss, appending (handler st ss)) ->
  world_of (dispatch handler w) = Some w' -> extends w w'.
Proof.
  intros Hh. unfold dispatch. specialize (Hh (stateHook w) (sessionStartHook w) w).
  destruct (handler (stateHook w) (sessionStartHook w) w) as [[] w1|e w1].
  - intros H. eapply extends_trans; [exact Hh|]. eapply rerender_extends, H.
  - intros H. eapply extends_trans; [exact Hh|].
    destruct (rerender effect_runs (stateHook w) w1) eqn:E; simpl in H;
      try discriminate; injection H as <-;
      eapply rerender_extends; rewrite E; reflexivity.
Qed.

Theorem step_extends ev w w' : world_of (step ev w) = Some w' -> extends w w'.
Proof.
  destruct ev; simpl; try (destruct (timerRef w); [|intros [= <-]; apply extends_refl]);
    apply dispatch_extends; intros st ss;
    destruct (appending_handlers st ss) as (H1 & H2 & H3 & H4 & H5 & H6); auto.
Qed.

Lemma mounted_world_of o w : mounted o = Some w -> world_of o = Some w.
Proof. destruct o; simpl; congruence. Qed.

Theorem run_extends evs : forall w w', run evs w = Some w' -> extends w w'.
Proof.
  induction evs as [|ev evs IH]; cbn [run]; intros w w'.
  - intros [= <-]. apply extends_refl.
  - destruct (mounted (step ev w)) as [w1|] eqn:E; [|discriminate].
    intros H. eapply extends_trans; [|eapply IH, H].
    apply (step_extends ev), mounted_world_of, E.
Qed.

(** C8. From a stored array of session records, two appends in a row leave
    a text that [JSON.parse] reads as the same records followed by the two
    new ones, in that order; the JSON value of a record determines every
    field of it; and whatever events follow, the records stored at first
    stay in place at the front of the stored array. *)
Theorem C8_append_round_trip (logs : list SessionLog) (e1 e2 : SessionLog) (w : World) :
  storedLogs w = Some (map SessionLog_toJSON logs) ->
  (exists w' text,
     (saveSessionToLocalStorage e1;; saveSessionToLocalStorage e2) w = Ret tt w' /\
     stored w' = Some text /\
     JSON_parse text = Some (JArr (map SessionLog_toJSON (logs ++ [e1; e2])))) /\
  (forall a b : SessionLog, SessionLog_toJSON a = SessionLog_toJSON b -> a = b) /\
  (forall evs w', run evs w = Some w' ->
     exists more, storedLogs w' = Some (map SessionLog_toJSON logs ++ more)).
Proof.
  intros Hl. split; [|split].
  - unfold mbind, M_bind.
    rewrite (saveSessionToLocalStorage_ok _ _ _ Hl).
    rewrite (saveSessionToLocalStorage_ok _ _ _ (storedLogs_write_log _ _)).
    eexists _, _. split; [reflexivity|]. split; [apply stored_write_log|].
    rewrite JSON_parse_stringify, map_app, <- app_assoc. reflexivity.
  - exact SessionLog_toJSON_inj.
  - intros evs w' Hrun. exact (run_extends evs w w' Hrun _ Hl).
Qed.

Lemma C8_witness :
  storedLogs sample_stored = Some (map SessionLog_toJSON [sample_entry]) /\
  (exists w' text,
     (saveSessionToLocalStorage sample_entry2;; saveSessionToLocalStorage sample_entry)
       sample_stored = Ret tt w' /\
     stored w' = Some text /\
     JSON_parse text
       = Some (JArr (map SessionLog_toJSON
                         ([sample_entry] ++ [sample_entry2; sample_entry])))).
Proof.
  split; [vm_compute; reflexivity|].
  apply (C8_append_round_trip [sample_entry] sample_entry2 sample_entry sample_stored).
  vm_compute; reflexivity.
Defined.

(** ** Closing a session from the controller *)

Lemma storedLogs_same_storage w w' :
  localStorage w' = localStorage w -> storedLogs w' = storedLogs w.
Proof. intros E. unfold storedLogs, stored. rewrite E. reflexivity. Qed.

Lemma step_Interrupt_open w start logs :
  timerStatus (stateHook w) <> idle ->
  workDuration (stateHook w) <> 0 ->
  sessionStartHook w = Some start -> start <> 0 ->
  storedLogs w = Some logs ->
  step Interrupt w = Settled (interrupted_world logs start w).
Proof.
  intros Hs Hw Hss Hst Hl.
  unfold step, dispatch, effect_runs, handleInterrupt.
  rewrite bool_decide_eq_true_2 by assumption. rewrite Hss.
  unfold mbind, M_bind, clearInterval.
  rewrite (handleEndSession_ok _ _ _ _ logs Hst) by exact Hl.
  unfold setState. rewrite rerender_nonzero by (simpl; exact Hw).
  unfold same_deps. simpl. rewrite bool_decide_eq_false_2 by assumption.
  reflexivity.
Qed.

Lemma step_Reset_open w start logs :
  timerStatus (stateHook w) <> idle ->
  workDuration (stateHook w) <> 0 ->
  sessionStartHook w = Some start -> start <> 0 ->
  storedLogs w = Some logs ->
  step Reset w = Settled (interrupted_world logs start w).
Proof.
  intros Hs Hw Hss Hst Hl.
  unfold step, dispatch, effect_runs, handleReset.
  replace (bool_decide (timerStatus (stateHook w) = running)
           || bool_decide (timerStatus (stateHook w) = paused)) with true
    by (destruct (timerStatus (stateHook w)); try contradiction; reflexivity).
  rewrite Hss. unfold mbind, M_bind, clearInterval.
  rewrite (handleEndSession_ok _ _ _ _ logs Hst) by exact Hl.
  unfold setState. rewrite rerender_nonzero by (simpl; exact Hw).
  unfold same_deps. simpl. rewrite bool_decide_eq_false_2 by assumption.
  reflexivity.
Qed.

Lemma step_Interrupt_idle w :
  timerStatus (stateHook w) = idle -> step Interrupt w = Settled w.
Proof.
  intros Hs. unfold step, dispatch, effect_runs, handleInterrupt.
  rewrite bool_decide_eq_false_2 by (rewrite Hs; auto).
  unfold mret, M_ret. apply rerender_same, same_deps_refl.
Qed.

Lemma storedLogs_interrupted_world logs start w :
  storedLogs (interrupted_world logs start w)
    = Some (logs ++ [SessionLog_toJSON (closed_entry (stateHook w) start true w)]).
Proof. apply (storedLogs_write_log _ w). Qed.



(** ** Counting down *)

#[local] Arguments Z.eqb : simpl never.
#[local] Arguments Z.ltb : simpl never.
#[local] Arguments Z.sub : simpl never.

(** A tick above one second only counts down. *)
Lemma step_Tick_countdown w :
  timerRef w = true -> timerStatus (stateHook w) = running ->
  1 < currentTime (stateHook w) ->
  step Tick w =
    Settled (put_timerRef true
               (put_state (with_currentTime (currentTime (stateHook w) - 1) (stateHook w)) w)).
Proof.
  destruct w as [[wd bd ct cs ts un] ss tm ls al clk n]; simpl.
  intros -> -> Hc. unfold step. simpl.
  unfold dispatch, effect_runs, tick, setState. simpl.
  rewrite rerender_nonzero by (simpl; lia).
  unfold same_deps. simpl.
  destruct (Z.eqb_spec ct (ct - 1)); [lia|].
  destruct (Z.ltb_spec 0 (ct - 1)); [|lia].
  reflexivity.
Qed.

Lemma run_app evs1 evs2 w :
  run (evs1 ++ evs2) w = run evs1 w ≫= run evs2.
Proof.
  revert w. induction evs1 as [|ev evs1 IH]; intros w; cbn [app run]; [reflexivity|].
  destruct (mounted (step ev w)); [apply IH | reflexivity].
Qed.

Lemma run_ticks_countdown k : forall w,
  timerRef w = true -> timerStatus (stateHook w) = running ->
  Z.of_nat k < currentTime (stateHook w) ->
  run (repeat Tick k) w =
    Some (put_timerRef true
            (put_state (with_currentTime (currentTime (stateHook w) - Z.of_nat k)
                                         (stateHook w)) w)).
Proof.
  induction k as [|k IH]; intros w Ht Hs Hc.
  - cbn [repeat run]. f_equal.
    destruct w as [[wd bd ct cs ts un] ss tm ls al clk n]; simpl in *. subst.
    unfold put_timerRef, put_state, with_currentTime. simpl.
    rewrite Z.sub_0_r. reflexivity.
  - cbn [repeat run]. rewrite step_Tick_countdown by (auto; lia). cbn [mounted].
    rewrite IH by (simpl; auto; lia).
    f_equal. unfold put_timerRef, put_state, with_currentTime. simpl.
    do 2 f_equal. lia.
Qed.

Lemma step_Tick_last w start logs :
  timerRef w = true -> timerStatus (stateHook w) = running ->
  currentTime (stateHook w) = 1 ->
  0 < workDuration (stateHook w) -> 0 < breakDuration (stateHook w) ->
  sessionStartHook w = Some start -> start <> 0 ->
  storedLogs w = Some logs ->
  step Tick w = Settled (switched_world logs start w).
Proof.
  destruct w as [[wd bd ct cs ts un] ss tm ls al clk n]; simpl.
  intros -> -> -> Hwd Hbd -> Hst Hl. unfold step. simpl.
  unfold dispatch, effect_runs, tick, setState. simpl.
  rewrite rerender_zero; simpl; try lia; [|reflexivity].
  change (1 - 1) with 0.
  unfold mbind at 1. unfold M_bind at 1.
  rewrite (handleEndSession_ok _ _ _ _ logs Hst) by exact Hl.
  unfold handleSessionSwitch. munfold. simpl.
  rewrite rerender_nonzero by (simpl; destruct (bool_decide _); lia).
  unfold same_deps, switched_world. simpl.
  destruct (bool_decide (cs = work)); simpl.
  - destruct (Z.eqb_spec 0 bd); [lia|]. destruct (Z.ltb_spec 0 bd); [|lia]. reflexivity.
  - destruct (Z.eqb_spec 0 wd); [lia|]. destruct (Z.ltb_spec 0 wd); [|lia]. reflexivity.
Qed.



Example sample_completion :
  match run (repeat Tick (Z.to_nat 5400)) sample_started with
  | Some w => (currentSession (stateHook w), currentTime (stateHook w),
               timerStatus (stateHook w), storedLogs w, sessionStartHook w)
  | None => (work, 0, idle, None, None)
  end
  = (break, 300, running,
     Some [SessionLog_toJSON
             {| Log.userName := "ana"; Log.sessionType := work;
                Log.startTime := 1; Log.endTime := 2; Log.interrupted := false |}],
     Some 3).
Proof. vm_compute. reflexivity. Qed.

Example sample_one_tick_short :
  match run (repeat Tick (Z.to_nat 5399)) sample_started with
  | Some w => (currentSession (stateHook w), currentTime (stateHook w), storedLogs w)
  | None => (break, 0, None)
  end = (work, 1, Some []).
Proof. vm_compute. reflexivity. Qed.

(** ** The name in a log entry *)

Lemma step_UserNameChange value w :
  step (UserNameChange value) w = Settled (put_state (with_userName value (stateHook w)) w).
Proof.
  unfold step, dispatch, effect_runs, handleUserNameChange, setState.
  apply rerender_same, same_deps_eq; reflexivity.
Qed.

(** C10. The name typed while a session is open is the name of the entry
    that closes it, whether the session is interrupted, reset or runs out:
    the entry carries the [userName] of the state at the closing event. *)
Theorem C10_entry_records_current_userName
    (w : World) (start : Z) (logs : list json) (value : string) :
  let st := stateHook w in
  let entry wasInterrupted :=
    SessionLog_toJSON
      {| Log.userName := value;
         Log.sessionType := currentSession st;
         Log.startTime := start;
         Log.endTime := clock w (clockReads w);
         Log.interrupted := wasInterrupted |} in
  timerStatus st <> idle ->
  60 <= workDuration st -> 60 <= breakDuration st ->
  sessionStartHook w = Some start -> start <> 0 ->
  storedLogs w = Some logs ->
  (exists w', run [UserNameChange value; Interrupt] w = Some w' /\
              storedLogs w' = Some (logs ++ [entry true])) /\
  (exists w', run [UserNameChange value; Reset] w = Some w' /\
              storedLogs w' = Some (logs ++ [entry true])) /\
  (timerRef w = true -> timerStatus st = running -> currentTime st = 1 ->
   exists w', run [UserNameChange value; Tick] w = Some w' /\
              storedLogs w' = Some (logs ++ [entry false])).
Proof.
  intros st entry Hs Hwd Hbd Hss Hst Hl. subst st entry.
  repeat split.
  - cbn [run]. rewrite step_UserNameChange. cbn [mounted].
    erewrite step_Interrupt_open;
      [ | exact Hs | simpl; lia | exact Hss | exact Hst | exact Hl ].
    eexists. split; [reflexivity|]. apply (storedLogs_write_log _ w).
  - cbn [run]. rewrite step_UserNameChange. cbn [mounted].
    erewrite step_Reset_open;
      [ | exact Hs | simpl; lia | exact Hss | exact Hst | exact Hl ].
    eexists. split; [reflexivity|]. apply (storedLogs_write_log _ w).
  - intros Htm Hr Hc. cbn [run]. rewrite step_UserNameChange. cbn [mounted].
    erewrite step_Tick_last;
      [ | exact Htm | exact Hr | exact Hc | simpl; lia | simpl; lia
        | exact Hss | exact Hst | exact Hl ].
    eexists. split; [reflexivity|]. apply (storedLogs_write_log _ w).
Qed.

Lemma C10_witness :
  timerStatus (stateHook sample_started) <> idle /\
  userName (stateHook sample_started) = "ana"%string /\
  exists w',
    run [UserNameChange "bea"; Interrupt] sample_started = Some w' /\
    storedLogs w' =
      Some ([] ++ [SessionLog_toJSON
                     {| Log.userName := "bea";
                        Log.sessionType := currentSession (stateHook sample_started);
                        Log.startTime := 1;
                        Log.endTime := clock sample_started (clockReads sample_started);
                        Log.interrupted := true |}]).
Proof.
  assert (H1 : timerStatus (stateHook sample_started) <> idle) by (vm_compute; discriminate).
  assert (H2 : 60 <= workDuration (stateHook sample_started)) by (vm_compute; discriminate).
  assert (H3 : 60 <= breakDuration (stateHook sample_started)) by (vm_compute; discriminate).
  assert (H4 : sessionStartHook sample_started = Some 1) by (vm_compute; reflexivity).
  assert (H5 : 1 <> 0) by lia.
  assert (H6 : storedLogs sample_started = Some []) by (vm_compute; reflexivity).
  split; [exact H1|]. split; [vm_compute; reflexivity|].
  exact (proj1 (C10_entry_records_current_userName sample_started 1 [] "bea"
                  H1 H2 H3 H4 H5 H6)).
Defined.

(** ** The effect settles *)

Lemma handleEndSession_state st ss wasInterrupted w :
  match handleEndSession st ss wasInterrupted w with
  | Ret _ w' => stateHook w' = stateHook w
  | Exn _ _ => True
  end.
Proof.
  destruct ss as [start|]; [|reflexivity].
  destruct (Z.eq_dec start 0) as [->|Hs]; [reflexivity|].
  destruct (handleEndSession_cases st start wasInterrupted w Hs) as [[text E]|[e E]];
    rewrite E; [reflexivity | exact I].
Qed.

(** Two runs of the effect are all a render ever needs: with more fuel the
    outcome is the same, and it is never [Unsettled]. *)
Theorem rerender_fuel n rendered w :
  rerender (S (S n)) rendered w = rerender effect_runs rendered w /\
  rerender effect_runs rendered w <> Unsettled.
Proof.
  unfold effect_runs.
  destruct (same_deps rendered (stateHook w)) eqn:Ed.
  { rewrite !rerender_same by exact Ed. split; [reflexivity | discriminate]. }
  destruct (Z.eq_dec (currentTime (stateHook w)) 0) as [Hz|Hz].
  - rewrite !rerender_zero by assumption.
    unfold mbind, M_bind.
    pose proof (handleEndSession_state (stateHook w) (sessionStartHook w) false
                  (put_timerRef false (put_timerRef false w))) as Hst.
    destruct (handleEndSession (stateHook w) (sessionStartHook w) false
                (put_timerRef false (put_timerRef false w))) as [[] w1|e w1];
      [|split; [reflexivity | discriminate]].
    unfold handleSessionSwitch. munfold. cbv beta iota.
    match goal with
    | |- rerender _ ?r ?w2 = _ /\ _ =>
        destruct (Z.eq_dec (currentTime (stateHook w2)) 0) as [Hz2|Hz2]
    end.
    + simpl in Hst, Hz2.
      match goal with
      | |- rerender _ ?r ?w2 = _ /\ _ =>
          assert (Hsame : same_deps r (stateHook w2) = true)
            by (unfold same_deps; simpl; rewrite Hz2, Hz, Hst;
                rewrite bool_decide_eq_true_2; reflexivity)
      end.
      rewrite !rerender_same by exact Hsame.
      split; [reflexivity | discriminate].
    + rewrite !rerender_nonzero by exact Hz2.
      split; [reflexivity|].
      match goal with |- (if ?b then _ else _) <> _ => destruct b end; discriminate.
  - rewrite !rerender_nonzero by exact Hz. rewrite Ed.
    split; [reflexivity | discriminate].
Qed.

Theorem step_settles ev w : step ev w <> Unsettled.
Proof.
  assert (Hd : forall handler, dispatch handler w <> Unsettled).
  { intros handler. unfold dispatch.
    destruct (handler (stateHook w) (sessionStartHook w) w) as [[] w1|e w1].
    - apply (rerender_fuel 0).
    - pose proof (proj2 (rerender_fuel 0 (stateHook w) w1)) as H.
      destruct (rerender effect_runs (stateHook w) w1); congruence. }
  destruct ev; simpl; try apply Hd.
  destruct (timerRef w); [apply Hd | discriminate].
Qed.

(** * Further properties of the component *)

(** ** Starting, pausing and resuming *)

(** X1. Starting an idle timer with a name typed in: the status becomes
    running, the session start is the clock's next reading, the interval is
    armed, and neither the countdown, the durations, the stored log nor the
    alerts change. *)
Theorem X1_start_from_idle (w : World) :
  timerStatus (stateHook w) = idle ->
  userName (stateHook w) <> ""%string ->
  sessionStartHook w = None ->
  0 < currentTime (stateHook w) ->
  step StartPause w = Settled (started_world w).
Proof.
  destruct w as [[wd bd ct cs ts un] ss tm ls al clk n]; simpl.
  intros -> Hn -> Hc. unfold step, dispatch, effect_runs, handleStartPause. simpl.
  destruct (String.eqb_spec un ""); [contradiction|].
  munfold. simpl. rewrite rerender_nonzero by (simpl; lia).
  unfold same_deps. simpl.
  destruct (Z.ltb_spec 0 ct); [reflexivity | lia].
Qed.

Lemma X1_witness :
  userName (stateHook (put_state (with_userName "ana" initialState) sample_world))
    <> ""%string /\
  step StartPause (put_state (with_userName "ana" initialState) sample_world)
    = Settled sample_started.
Proof.
  split; [vm_compute; discriminate|].
  rewrite (X1_start_from_idle (put_state (with_userName "ana" initialState) sample_world));
    [vm_compute; reflexivity | reflexivity | vm_compute; discriminate | reflexivity
    | vm_compute; reflexivity].
Defined.

(** X2. Pausing a running timer stops the interval and keeps the countdown
    and the open session start; while paused a tick changes nothing; and
    resuming gives back exactly the world before the pause, so the session
    that is logged later still starts at the first start. *)
Theorem X2_pause_resume (w : World) (start : Z) :
  timerStatus (stateHook w) = running ->
  userName (stateHook w) <> ""%string ->
  sessionStartHook w = Some start -> start <> 0 ->
  timerRef w = true ->
  0 < currentTime (stateHook w) ->
  step StartPause w = Settled (paused_world w) /\
  step Tick (paused_world w) = Settled (paused_world w) /\
  step StartPause (paused_world w) = Settled w.
Proof.
  destruct w as [[wd bd ct cs ts un] ss tm ls al clk n]; simpl.
  intros -> Hn -> Hs -> Hc.
  unfold paused_world, step, dispatch, effect_runs, handleStartPause. simpl.
  destruct (String.eqb_spec un ""); [contradiction|].
  destruct (Z.eqb_spec start 0); [contradiction|].
  munfold. simpl. rewrite !rerender_nonzero by (simpl; lia).
  unfold same_deps. simpl.
  destruct (Z.ltb_spec 0 ct); [|lia].
  repeat split; reflexivity.
Qed.

Lemma X2_witness :
  step StartPause sample_started = Settled (paused_world sample_started) /\
  step Tick (paused_world sample_started) = Settled (paused_world sample_started) /\
  step StartPause (paused_world sample_started) = Settled sample_started.
Proof.
  apply (X2_pause_resume sample_started 1);
    first [ vm_compute; reflexivity | vm_compute; discriminate ].
Defined.

(** X3. On a timer that is not idle, reset and interrupt are the same
    operation: the same entry is written (or the same error thrown) and the
    same world results.  On a reachable idle timer both change nothing. *)
Theorem X3_reset_is_interrupt (w : World) :
  timerStatus (stateHook w) <> idle \/ reachable w ->
  step Reset w = step Interrupt w.
Proof.
  intros [Hs|Hr].
  - unfold step, dispatch, handleReset, handleInterrupt.
    rewrite (bool_decide_eq_true_2 _ Hs).
    replace (bool_decide (timerStatus (stateHook w) = running)
             || bool_decide (timerStatus (stateHook w) = paused)) with true
      by (destruct (timerStatus (stateHook w)); try contradiction; reflexivity).
    reflexivity.
  - destruct (decide (timerStatus (stateHook w) = idle)) as [Hid|Hs].
    + apply reachable_Inv in Hr. destruct Hr as [_ _ _ Hi _ _ _].
      destruct (Hi Hid) as (Hss & Hc & Ht & Htm).
      rewrite step_Interrupt_idle by exact Hid.
      destruct w as [[wd bd ct cs ts un] ss tm ls al clk n]; simpl in *. subst.
      unfold step, dispatch, effect_runs, handleReset. munfold. simpl.
      apply rerender_same, same_deps_refl.
    + unfold step, dispatch, handleReset, handleInterrupt.
      rewrite (bool_decide_eq_true_2 _ Hs).
      replace (bool_decide (timerStatus (stateHook w) = running)
               || bool_decide (timerStatus (stateHook w) = paused)) with true
        by (destruct (timerStatus (stateHook w)); try contradiction; reflexivity).
      reflexivity.
Qed.

Lemma X3_witness :
  timerStatus (stateHook sample_started) <> idle /\
  step Reset sample_started = step Interrupt sample_started.
Proof.
  assert (H : timerStatus (stateHook sample_started) <> idle) by (vm_compute; discriminate).
  split; [exact H | apply (X3_reset_is_interrupt sample_started); left; exact H].
Defined.

(** X4. In every reachable state whose timer is not running (idle or
    paused) no interval is live, so a tick cannot change anything: the
    countdown only moves while the status is running. *)
Theorem X4_no_countdown_unless_running (w : World) :
  reachable w -> timerStatus (stateHook w) <> running ->
  timerRef w = false /\ step Tick w = Settled w.
Proof.
  intros Hr Hs. apply reachable_Inv in Hr. destruct Hr as [_ _ _ _ _ Htm _].
  assert (E : timerRef w = false).
  { destruct (timerRef w); [exfalso; apply Hs, Htm; reflexivity | reflexivity]. }
  split; [exact E|]. unfold step. rewrite E. reflexivity.
Qed.

Lemma X4_witness :
  reachable (paused_world sample_started) /\
  timerStatus (stateHook (paused_world sample_started)) <> running /\
  timerRef (paused_world sample_started) = false /\
  step Tick (paused_world sample_started) = Settled (paused_world sample_started).
Proof.
  assert (Hr : reachable (paused_world sample_started)).
  { exists ∅, sample_clock, [UserNameChange "ana"; StartPause; StartPause].
    split; [intros n; unfold sample_clock; lia | vm_compute; reflexivity]. }
  assert (Hs : timerStatus (stateHook (paused_world sample_started)) <> running)
    by (vm_compute; discriminate).
  split; [exact Hr|]. split; [exact Hs|].
  apply (X4_no_countdown_unless_running (paused_world sample_started) Hr Hs).
Defined.

(** X17. Emptying the name field while the timer runs disables the pause
    button: the click only shows the alert, the timer keeps running with its
    interval, countdown and open session as they were.  (Reset and interrupt
    do not look at the name and still work.) *)
Theorem X17_no_pause_without_name (w : World) :
  timerStatus (stateHook w) = running ->
  exists w',
    run [UserNameChange ""; StartPause] w = Some w' /\
    alerts w' = alerts w ++ [validation_message] /\
    stateHook w' = with_userName "" (stateHook w) /\
    timerStatus (stateHook w') = running /\
    currentTime (stateHook w') = currentTime (stateHook w) /\
    timerRef w' = timerRef w /\
    sessionStartHook w' = sessionStartHook w /\
    localStorage w' = localStorage w.
Proof.
  intros Hs. cbn [run]. rewrite step_UserNameChange. cbn [mounted].
  unfold step, dispatch, effect_runs, handleStartPause. simpl. munfold.
  rewrite rerender_same by apply same_deps_refl.
  eexists. split; [reflexivity|]. simpl. repeat split; auto.
Qed.

Lemma X17_witness :
  timerStatus (stateHook sample_started) = running /\
  exists w',
    run [UserNameChange ""; StartPause] sample_started = Some w' /\
    alerts w' = alerts sample_started ++ [validation_message] /\
    stateHook w' = with_userName "" (stateHook sample_started) /\
    timerStatus (stateHook w') = running /\
    currentTime (stateHook w') = currentTime (stateHook sample_started) /\
    timerRef w' = timerRef sample_started /\
    sessionStartHook w' = sessionStartHook sample_started /\
    localStorage w' = localStorage sample_started.
Proof.
  assert (H : timerStatus (stateHook sample_started) = running) by (vm_compute; reflexivity).
  split; [exact H | apply (X17_no_pause_without_name sample_started H)].
Defined.

(** ** Sessions running out *)

Lemma switched_world_countdown logs start k w :
  timerRef w = true ->
  switched_world logs start
    (put_timerRef true
       (put_state (with_currentTime (currentTime (stateHook w) - k) (stateHook w)) w))
  = switched_world logs start w.
Proof. intros _. reflexivity. Qed.

(** A running session ends after exactly [currentTime] ticks. *)
Lemma run_session_out (w : World) (start : Z) (logs : list json) :
  timerStatus (stateHook w) = running -> timerRef w = true ->
  0 < currentTime (stateHook w) ->
  0 < workDuration (stateHook w) -> 0 < breakDuration (stateHook w) ->
  sessionStartHook w = Some start -> start <> 0 ->
  storedLogs w = Some logs ->
  run (repeat Tick (Z.to_nat (currentTime (stateHook w)))) w
    = Some (switched_world logs start w).
Proof.
  intros Hs Htm Hc Hwd Hbd Hss Hst Hl.
  destruct (Z.to_nat (currentTime (stateHook w))) as [|k] eqn:Ek; [lia|].
  change (repeat Tick (S k)) with (Tick :: repeat Tick k).
  rewrite repeat_cons, run_app, run_ticks_countdown by (auto; lia).
  cbn [mbind option_bind run].
  erewrite step_Tick_last;
    [ | reflexivity | exact Hs | simpl; lia | simpl; lia | simpl; lia
      | exact Hss | exact Hst | exact Hl ].
  cbn [mounted]. rewrite switched_world_countdown by exact Htm. reflexivity.
Qed.

(** X5. A running session of either type, with [currentTime] seconds left,
    ends after exactly that many ticks: the entry of the session is
    appended, not interrupted and with the type that ran; the other type
    starts with its own full duration, the clock's next reading as its
    start and the interval armed. *)
Theorem X5_session_runs_out (w : World) (start : Z) (logs : list json) :
  timerStatus (stateHook w) = running -> timerRef w = true ->
  0 < currentTime (stateHook w) ->
  0 < workDuration (stateHook w) -> 0 < breakDuration (stateHook w) ->
  sessionStartHook w = Some start -> start <> 0 ->
  storedLogs w = Some logs ->
  run (repeat Tick (Z.to_nat (currentTime (stateHook w)))) w
    = Some (switched_world logs start w) /\
  storedLogs (switched_world logs start w)
    = Some (logs ++ [SessionLog_toJSON
                       {| Log.userName := userName (stateHook w);
                          Log.sessionType := currentSession (stateHook w);
                          Log.startTime := start;
                          Log.endTime := clock w (clockReads w);
                          Log.interrupted := false |}]) /\
  currentSession (stateHook (switched_world logs start w))
    = match currentSession (stateHook w) with work => break | break => work end /\
  currentTime (stateHook (switched_world logs start w))
    = match currentSession (stateHook w) with
      | work => breakDuration (stateHook w)
      | break => workDuration (stateHook w)
      end.
Proof.
  intros Hs Htm Hc Hwd Hbd Hss Hst Hl. split; [|split; [|split]].
  - apply run_session_out; assumption.
  - apply (storedLogs_write_log _ w).
  - simpl. destruct (currentSession (stateHook w)); reflexivity.
  - simpl. destruct (currentSession (stateHook w)); reflexivity.
Qed.

Lemma X5_witness :
  currentSession (stateHook sample_break_ending) = break /\
  currentTime (stateHook sample_break_ending) = 1 /\
  exists w',
    run (repeat Tick (Z.to_nat 1)) sample_break_ending = Some w' /\
    currentSession (stateHook w') = work /\
    currentTime (stateHook w') = 5400.
Proof.
  assert (H1 : timerStatus (stateHook sample_break_ending) = running)
    by (vm_compute; reflexivity).
  assert (H2 : timerRef sample_break_ending = true) by (vm_compute; reflexivity).
  assert (H3 : 0 < currentTime (stateHook sample_break_ending)) by (vm_compute; reflexivity).
  assert (H4 : 0 < workDuration (stateHook sample_break_ending)) by (vm_compute; reflexivity).
  assert (H5 : 0 < breakDuration (stateHook sample_break_ending)) by (vm_compute; reflexivity).
  assert (H6 : sessionStartHook sample_break_ending = Some 3) by (vm_compute; reflexivity).
  assert (H7 : 3 <> 0) by lia.
  assert (H8 : exists logs, storedLogs sample_break_ending = Some logs)
    by (eexists; vm_compute; reflexivity).
  destruct H8 as [logs H8].
  split; [vm_compute; reflexivity|]. split; [vm_compute; reflexivity|].
  destruct (X5_session_runs_out sample_break_ending 3 logs H1 H2 H3 H4 H5 H6 H7 H8)
    as (Hrun & _ & Hc & Ht).
  exists (switched_world logs 3 sample_break_ending).
  split; [exact Hrun|]. split; [rewrite Hc | rewrite Ht]; vm_compute; reflexivity.
Defined.

(** X6. A whole cycle.  From a work session that has just started, after
    [workDuration + breakDuration] ticks the timer runs a fresh work session
    again, and the stored log has grown by two entries in order: the work
    session and then the break session, neither interrupted; the break
    starts at the reading taken when the work session was closed.  The two
    clock readings that become session starts must not be 0. *)
Theorem X6_work_break_cycle (w : World) (start : Z) (logs : list json) :
  let st := stateHook w in
  let n := clockReads w in
  timerStatus st = running -> currentSession st = work ->
  currentTime st = workDuration st ->
  0 < workDuration st -> 0 < breakDuration st ->
  timerRef w = true ->
  sessionStartHook w = Some start -> start <> 0 ->
  clock w (S n) <> 0 ->
  storedLogs w = Some logs ->
  exists w',
    run (repeat Tick (Z.to_nat (workDuration st + breakDuration st))) w = Some w' /\
    stateHook w' = st /\
    timerRef w' = true /\
    sessionStartHook w' = Some (clock w (S (S (S n)))) /\
    storedLogs w' =
      Some (logs ++
            [SessionLog_toJSON
               {| Log.userName := userName st; Log.sessionType := work;
                  Log.startTime := start; Log.endTime := clock w n;
                  Log.interrupted := false |};
             SessionLog_toJSON
               {| Log.userName := userName st; Log.sessionType := break;
                  Log.startTime := clock w (S n); Log.endTime := clock w (S (S n));
                  Log.interrupted := false |}]).
Proof.
  intros st n Hs Hc Ht Hwd Hbd Htm Hss Hst Hck Hl. subst st n.
  rewrite Z2Nat.inj_add, repeat_app, run_app by lia.
  rewrite <- Ht, (run_session_out w start logs) by (auto; lia).
  cbn [mbind option_bind].
  set (w1 := switched_world logs start w).
  assert (Hbd1 : currentTime (stateHook w1) = breakDuration (stateHook w)).
  { subst w1. simpl. rewrite Hc. reflexivity. }
  assert (Hl1 : storedLogs w1 = Some (logs ++ [SessionLog_toJSON (closed_entry (stateHook w) start false w)]))
    by apply (storedLogs_write_log _ w).
  rewrite <- Hbd1, (run_session_out w1 (clock w (S (clockReads w))) _ Hs eq_refl)
    by first [ exact Hl1 | exact Hck | reflexivity | rewrite Hbd1; lia | simpl; lia ].
  eexists. split; [reflexivity|].
  split; [|split; [reflexivity|split; [reflexivity|]]].
  - destruct w as [[wd bd ct cs ts un] ss tm ls al clk n]; simpl in *. subst.
    reflexivity.
  - etransitivity; [apply (storedLogs_write_log _ w1)|].
    subst w1. unfold closed_entry. simpl.
    rewrite Hc. simpl. rewrite <- app_assoc. reflexivity.
Qed.

Lemma X6_witness :
  currentSession (stateHook sample_started) = work /\
  exists w',
    run (repeat Tick (Z.to_nat (workDuration (stateHook sample_started)
                               + breakDuration (stateHook sample_started))))
        sample_started = Some w' /\
    stateHook w' = stateHook sample_started /\
    sessionStartHook w' = Some 5 /\
    storedLogs w' =
      Some [SessionLog_toJSON
              {| Log.userName := "ana"; Log.sessionType := work;
                 Log.startTime := 1; Log.endTime := 2; Log.interrupted := false |};
            SessionLog_toJSON
              {| Log.userName := "ana"; Log.sessionType := break;
                 Log.startTime := 3; Log.endTime := 4; Log.interrupted := false |}].
Proof.
  assert (H1 : timerStatus (stateHook sample_started) = running) by (vm_compute; reflexivity).
  assert (H2 : currentSession (stateHook sample_started) = work) by (vm_compute; reflexivity).
  assert (H3 : currentTime (stateHook sample_started)
               = workDuration (stateHook sample_started)) by (vm_compute; reflexivity).
  assert (H4 : 0 < workDuration (stateHook sample_started)) by (vm_compute; reflexivity).
  assert (H5 : 0 < breakDuration (stateHook sample_started)) by (vm_compute; reflexivity).
  assert (H6 : timerRef sample_started = true) by (vm_compute; reflexivity).
  assert (H7 : sessionStartHook sample_started = Some 1) by (vm_compute; reflexivity).
  assert (H8 : 1 <> 0) by lia.
  assert (H9 : clock sample_started (S (clockReads sample_started)) <> 0)
    by (vm_compute; discriminate).
  assert (H10 : storedLogs sample_started = Some []) by (vm_compute; reflexivity).
  split; [exact H2|].
  destruct (X6_work_break_cycle sample_started 1 [] H1 H2 H3 H4 H5 H6 H7 H8 H9 H10)
    as (w' & Hrun & Hst & _ & Hss & Hl).
  exists w'. split; [exact Hrun|]. split; [exact Hst|].
  split; [rewrite Hss | rewrite Hl]; vm_compute; reflexivity.
Defined.

(** ** The transitions of the component *)

Lemma handleEndSession_unreadable st start wasInterrupted w :
  start <> 0 -> storedLogs w = None ->
  exists e, handleEndSession st (Some start) wasInterrupted w
            = Exn e (put_clockReads (S (clockReads w)) w).
Proof.
  intros Hs Hl. unfold handleEndSession.
  destruct (Z.eqb_spec start 0); [contradiction|].
  unfold mbind, M_bind.
  change (Date_now w) with (Ret (clock w (clockReads w)) (put_clockReads (S (clockReads w)) w)).
  cbv beta iota. rewrite saveSessionToLocalStorage_eq.
  rewrite (storedLogs_same_storage w) by reflexivity. rewrite Hl.
  replace (stored (put_clockReads (S (clockReads w)) w)) with (stored w) by reflexivity.
  destruct (stored w) as [text|]; [destruct (JSON_parse text)|]; eauto.
Qed.

Lemma step_Reset_not_idle w :
  timerStatus (stateHook w) <> idle -> step Reset w = step Interrupt w.
Proof.
  intros Hs. unfold step, dispatch, handleReset, handleInterrupt.
  rewrite (bool_decide_eq_true_2 _ Hs).
  replace (bool_decide (timerStatus (stateHook w) = running)
           || bool_decide (timerStatus (stateHook w) = paused)) with true
    by (destruct (timerStatus (stateHook w)); try contradiction; reflexivity).
  reflexivity.
Qed.

Lemma step_Interrupt_unreadable w start :
  timerStatus (stateHook w) <> idle ->
  sessionStartHook w = Some start -> start <> 0 ->
  storedLogs w = None ->
  exists e, step Interrupt w = Threw e (failed_world w).
Proof.
  intros Hs Hss Hst Hl.
  unfold step, dispatch, effect_runs, handleInterrupt.
  rewrite (bool_decide_eq_true_2 _ Hs), Hss.
  unfold mbind, M_bind, clearInterval.
  destruct (handleEndSession_unreadable (stateHook w) start true (put_timerRef false w) Hst)
    as [e E]; [exact Hl|].
  rewrite E. exists e. rewrite rerender_same by apply same_deps_refl. reflexivity.
Qed.

Lemma step_Reset_idle w :
  Inv w -> timerStatus (stateHook w) = idle -> step Reset w = Settled w.
Proof.
  intros [_ _ _ Hi _ _ _] Hid. destruct (Hi Hid) as (Hss & Hc & Ht & Htm).
  destruct w as [[wd bd ct cs ts un] ss tm ls al clk n]; simpl in *. subst.
  unfold step, dispatch, effect_runs, handleReset. munfold. simpl.
  apply rerender_same, same_deps_refl.
Qed.

Lemma step_StartPause_alert w :
  userName (stateHook w) = ""%string -> step StartPause w = Settled (alerted_world w).
Proof.
  intros Hn. unfold step, dispatch, effect_runs, handleStartPause.
  rewrite Hn. simpl. munfold. apply rerender_same, same_deps_refl.
Qed.

Lemma step_StartPause_start w :
  userName (stateHook w) <> ""%string -> timerStatus (stateHook w) = idle ->
  sessionStartHook w = None -> 0 < currentTime (stateHook w) ->
  step StartPause w = Settled (started_world w).
Proof.
  destruct w as [[wd bd ct cs ts un] ss tm ls al clk n]; simpl.
  intros Hn -> -> Hc. unfold step, dispatch, effect_runs, handleStartPause. simpl.
  destruct (String.eqb_spec un ""); [contradiction|].
  munfold. simpl. rewrite rerender_nonzero by (simpl; lia).
  unfold same_deps. simpl.
  destruct (Z.ltb_spec 0 ct); [reflexivity | lia].
Qed.

Lemma step_StartPause_pause w :
  userName (stateHook w) <> ""%string -> timerStatus (stateHook w) = running ->
  currentTime (stateHook w) <> 0 ->
  step StartPause w = Settled (paused_world w).
Proof.
  destruct w as [[wd bd ct cs ts un] ss tm ls al clk n]; simpl.
  intros Hn -> Hc. unfold paused_world, step, dispatch, effect_runs, handleStartPause. simpl.
  destruct (String.eqb_spec un ""); [contradiction|].
  munfold. simpl. rewrite rerender_nonzero by (simpl; lia). reflexivity.
Qed.

Lemma step_StartPause_resume w start :
  userName (stateHook w) <> ""%string -> timerStatus (stateHook w) = paused ->
  sessionStartHook w = Some start -> start <> 0 ->
  0 < currentTime (stateHook w) ->
  step StartPause w = Settled (resumed_world w).
Proof.
  destruct w as [[wd bd ct cs ts un] ss tm ls al clk n]; simpl.
  intros Hn -> -> Hs Hc.
  unfold resumed_world, step, dispatch, effect_runs, handleStartPause. simpl.
  destruct (String.eqb_spec un ""); [contradiction|].
  destruct (Z.eqb_spec start 0); [contradiction|].
  munfold. simpl. rewrite rerender_nonzero by (simpl; lia).
  unfold same_deps. simpl. destruct (Z.ltb_spec 0 ct); [reflexivity | lia].
Qed.

Lemma handleDurationChange_adjust type increment :
  handleDurationChange type increment = setState (adjust_duration type increment).
Proof. reflexivity. Qed.

Lemma step_DurationChange type increment w :
  currentTime (stateHook w) <> 0 ->
  step (DurationChange type increment) w = Settled (configured_world type increment w).
Proof.
  intros Hc. unfold step, dispatch, effect_runs, configured_world.
  rewrite handleDurationChange_adjust. unfold setState.
  rewrite rerender_nonzero.
  - simpl. destruct (same_deps _ _); reflexivity.
  - destruct type; simpl; destruct (bool_decide _); lia.
Qed.

Lemma step_Tick_last_unreadable w start :
  timerRef w = true -> currentTime (stateHook w) = 1 ->
  sessionStartHook w = Some start -> start <> 0 ->
  storedLogs w = None ->
  mounted (step Tick w) = None.
Proof.
  destruct w as [[wd bd ct cs ts un] ss tm ls al clk n]; simpl.
  intros -> -> -> Hst Hl. unfold step. simpl.
  unfold dispatch, effect_runs, tick, setState. simpl.
  rewrite rerender_zero; simpl; try lia.
  2:{ unfold same_deps. simpl. apply andb_false_r. }
  unfold mbind at 1. unfold M_bind at 1.
  match goal with
  | |- context [handleEndSession ?st (Some ?s) ?b ?w] =>
      destruct (handleEndSession_unreadable st s b w Hst) as [e E]; [exact Hl|]; rewrite E
  end.
  reflexivity.
Qed.

(** Between two events of a reachable component nothing else happens. *)
Lemma step_transition ev w w' :
  Inv w -> mounted (step ev w) = Some w' -> transition w ev w'.
Proof.
  intros HI. pose proof HI as [Hw Hb Ht Hi Ho Htm Hc].
  destruct ev as [| | |type increment|value|].
  - (* StartPause *)
    destruct (decide (userName (stateHook w) = ""%string)) as [Hn|Hn].
    { rewrite step_StartPause_alert by exact Hn. intros [= <-]. apply t_alert, Hn. }
    destruct (timerStatus (stateHook w)) eqn:Es.
    + destruct Hi as (Hss & _); [reflexivity|].
      rewrite step_StartPause_start by auto. intros [= <-]. apply t_start; auto.
    + rewrite step_StartPause_pause by (auto; lia). intros [= <-]. apply t_pause; auto.
    + destruct Ho as (start & Hss & Hst); [discriminate|].
      rewrite (step_StartPause_resume w start) by auto.
      intros [= <-]. apply t_resume; auto.
  - (* Reset *)
    destruct (decide (timerStatus (stateHook w) = idle)) as [Hid|Hs].
    { rewrite step_Reset_idle by auto. intros [= <-]. apply t_idle; auto. }
    rewrite step_Reset_not_idle by exact Hs.
    destruct (Ho Hs) as (start & Hss & Hst).
    destruct (storedLogs w) as [logs|] eqn:El.
    + rewrite (step_Interrupt_open w start logs) by (auto; lia).
      intros [= <-]. eapply t_close; eauto.
    + destruct (step_Interrupt_unreadable w start Hs Hss Hst El) as [e E].
      rewrite E. intros [= <-]. apply t_close_failed; auto.
  - (* Interrupt *)
    destruct (decide (timerStatus (stateHook w) = idle)) as [Hid|Hs].
    { rewrite step_Interrupt_idle by auto. intros [= <-]. apply t_idle; auto. }
    destruct (Ho Hs) as (start & Hss & Hst).
    destruct (storedLogs w) as [logs|] eqn:El.
    + rewrite (step_Interrupt_open w start logs) by (auto; lia).
      intros [= <-]. eapply t_close; eauto.
    + destruct (step_Interrupt_unreadable w start Hs Hss Hst El) as [e E].
      rewrite E. intros [= <-]. apply t_close_failed; auto.
  - rewrite step_DurationChange by lia. intros [= <-]. apply t_configure.
  - rewrite step_UserNameChange. intros [= <-]. apply t_rename.
  - (* Tick *)
    destruct (timerRef w) eqn:Etm.
    2:{ unfold step. rewrite Etm. intros [= <-]. apply t_no_tick, Etm. }
    specialize (Htm eq_refl).
    destruct (Z.eq_dec (currentTime (stateHook w)) 1) as [E1|E1].
    + destruct Ho as (start & Hss & Hst); [rewrite Htm; discriminate|].
      destruct (storedLogs w) as [logs|] eqn:El.
      * rewrite (step_Tick_last w start logs) by (auto; lia).
        intros [= <-]. eapply t_switch; eauto.
      * rewrite (step_Tick_last_unreadable w start) by auto. discriminate.
    + rewrite step_Tick_countdown by (auto; lia).
      intros [= <-]. apply t_countdown; auto. lia.
Qed.

(** X7. The component is a state machine: from a reachable world, an
    event that leaves it mounted takes exactly one of twelve transitions
    (alert, start, pause, resume, nothing on idle, close, failed close,
    configure, rename, no tick, count down, switch), each with the world it
    leads to written out. *)
Theorem X7_transitions (ev : Event) (w w' : World) :
  reachable w -> mounted (step ev w) = Some w' -> transition w ev w'.
Proof. intros Hr. apply step_transition, reachable_Inv, Hr. Qed.

Lemma X7_witness :
  reachable sample_started /\
  mounted (step StartPause sample_started) = Some (paused_world sample_started) /\
  transition sample_started StartPause (paused_world sample_started).
Proof.
  assert (Hr : reachable sample_started).
  { exists ∅, sample_clock, [UserNameChange "ana"; StartPause].
    split; [intros n; unfold sample_clock; lia | vm_compute; reflexivity]. }
  assert (Hs : mounted (step StartPause sample_started) = Some (paused_world sample_started))
    by (vm_compute; reflexivity).
  split; [exact Hr|]. split; [exact Hs|].
  apply (X7_transitions StartPause sample_started (paused_world sample_started) Hr Hs).
Defined.

(** A property that holds when the component is mounted and that every
    transition keeps holds in every reachable world. *)
Lemma reachable_invariant (Q : World -> Prop) :
  (forall storage clk, (forall n, clk n <> 0) -> Q (initialWorld storage clk)) ->
  (forall w ev w', Inv w -> Q w -> transition w ev w' -> Q w') ->
  forall w, reachable w -> Q w.
Proof.
  intros Hinit Hstep w (storage & clk & evs & Hclk & Hrun).
  assert (H : forall evs w0 w1, Inv w0 -> Q w0 -> run evs w0 = Some w1 -> Q w1).
  { clear evs Hrun. induction evs as [|ev evs IH]; cbn [run]; intros w0 w1 HI HQ.
    - intros [= <-]. exact HQ.
    - destruct (mounted (step ev w0)) as [w2|] eqn:E; [|discriminate].
      intros Hrun'. apply (IH w2 w1); [eapply step_Inv; eauto | | exact Hrun'].
      apply (Hstep w0 ev w2 HI HQ). apply step_transition; auto. }
  eapply H; [apply initialWorld_Inv, Hclk | apply Hinit, Hclk | exact Hrun].
Qed.

(** ** What every reachable state satisfies *)

Lemma max_60_divide d delta :
  (60 | d) -> delta = 60 \/ delta = -60 -> (60 | Z.max 60 (d + delta)).
Proof.
  intros [k ->] Hd. destruct (Z.max_spec 60 (k * 60 + delta)) as [[_ ->]|[_ ->]].
  - destruct Hd as [-> | ->]; [exists (k + 1) | exists (k - 1)]; lia.
  - exists 1. lia.
Qed.

Lemma reachable_well_timed (w : World) : reachable w -> well_timed (stateHook w).
Proof.
  apply (reachable_invariant (fun w => well_timed (stateHook w))).
  - intros storage clk _. unfold well_timed, currentDuration. simpl.
    repeat split; try lia; [exists 90 | exists 5]; reflexivity.
  - intros w0 ev w1 HI (Dw & Db & Hw & Hb & Hc) Ht. unfold well_timed, currentDuration in *.
    destruct Ht; try (simpl; repeat split; auto; lia).
    + (* configure *)
      assert (Hwd : forall b, 60 <= Z.max 60 b) by (intros; lia).
      unfold configured_world.
      destruct (same_deps _ _); cbn [stateHook put_state put_timerRef];
        destruct type, (currentSession (stateHook w0)) eqn:Ec; simpl; rewrite ?Ec; simpl;
        repeat split; auto; try lia;
        try (apply max_60_divide; auto; destruct increment; auto).
    + (* switch *)
      simpl. destruct (currentSession (stateHook w0)); simpl; repeat split; auto; lia.
Qed.


(** X8. In every reachable state both durations are whole minutes and at
    least 60 seconds, and the countdown is positive and never above the
    duration of the current session type. *)
Theorem X8_well_timed (w : World) : reachable w -> well_timed (stateHook w).
Proof. apply reachable_well_timed. Qed.

Lemma X8_witness :
  reachable sample_break_ending /\ well_timed (stateHook sample_break_ending).
Proof.
  assert (Hr : reachable sample_break_ending).
  { exists ∅, sample_clock,
      ([UserNameChange "ana"; StartPause]
         ++ repeat Tick (Z.to_nat 5400) ++ repeat Tick (Z.to_nat 299)).
    split; [intros n; unfold sample_clock; lia | vm_compute; reflexivity]. }
  split; [exact Hr | apply (X8_well_timed sample_break_ending Hr)].
Defined.

(** ** When the stored log cannot be read *)

(** X9. With a session open and a stored text that is not a JSON array,
    interrupt and reset throw: nothing is written, the state and the open
    session stay, but the interval was already cleared, so the timer shows
    running and no longer counts down.  If instead the countdown reaches
    zero in such a world, the effect throws and the component is unmounted. *)
Theorem X9_unreadable_log (w : World) (start : Z) :
  timerStatus (stateHook w) <> idle ->
  sessionStartHook w = Some start -> start <> 0 ->
  storedLogs w = None ->
  (exists e, step Interrupt w = Threw e (failed_world w) /\
             step Reset w = Threw e (failed_world w)) /\
  stateHook (failed_world w) = stateHook w /\
  sessionStartHook (failed_world w) = sessionStartHook w /\
  localStorage (failed_world w) = localStorage w /\
  step Tick (failed_world w) = Settled (failed_world w) /\
  (timerRef w = true -> currentTime (stateHook w) = 1 -> mounted (step Tick w) = None).
Proof.
  intros Hs Hss Hst Hl. split; [|repeat split].
  - destruct (step_Interrupt_unreadable w start Hs Hss Hst Hl) as [e E].
    exists e. split; [exact E|]. rewrite step_Reset_not_idle by exact Hs. exact E.
  - intros Htm Hc. apply (step_Tick_last_unreadable w start); auto.
Qed.

Lemma X9_witness :
  storedLogs sample_unreadable = None /\
  (exists e, step Interrupt sample_unreadable = Threw e (failed_world sample_unreadable) /\
             step Reset sample_unreadable = Threw e (failed_world sample_unreadable)) /\
  step Tick (failed_world sample_unreadable) = Settled (failed_world sample_unreadable).
Proof.
  assert (H1 : timerStatus (stateHook sample_unreadable) <> idle) by (vm_compute; discriminate).
  assert (H2 : sessionStartHook sample_unreadable = Some 1) by (vm_compute; reflexivity).
  assert (H3 : 1 <> 0) by lia.
  assert (H4 : storedLogs sample_unreadable = None) by (vm_compute; reflexivity).
  split; [exact H4|].
  destruct (X9_unreadable_log sample_unreadable 1 H1 H2 H3 H4) as (He & _ & _ & _ & Ht & _).
  split; [exact He | exact Ht].
Defined.

(** ** When the stored log is written *)

(** X10. From a reachable world an event either leaves [localStorage] as
    it is or appends exactly one entry, the one of the open session; the
    second happens only on a reset or an interrupt of a timer that is not
    idle (entry interrupted) and on the tick that takes the countdown from
    one to zero (entry not interrupted).  Starting, pausing, resuming,
    renaming, changing a duration and every other tick never write. *)
Theorem X10_written_only_on_close (ev : Event) (w w' : World) :
  reachable w -> mounted (step ev w) = Some w' ->
  localStorage w' = localStorage w \/
  exists start logs wasInterrupted,
    sessionStartHook w = Some start /\
    storedLogs w = Some logs /\
    storedLogs w' =
      Some (logs ++ [SessionLog_toJSON
                       (closed_entry (stateHook w) start wasInterrupted w)]) /\
    ((ev = Reset \/ ev = Interrupt) /\ wasInterrupted = true /\
       timerStatus (stateHook w) <> idle
     \/ ev = Tick /\ wasInterrupted = false /\ currentTime (stateHook w) = 1 /\
        timerRef w = true).
Proof.
  intros Hr Hstep. apply reachable_Inv in Hr.
  destruct (step_transition ev w w' Hr Hstep);
    try (left; unfold configured_world; try destruct (same_deps _ _); reflexivity).
  - right. exists start, logs, true. repeat split; auto.
    apply storedLogs_interrupted_world.
  - right. exists start, logs, false. repeat split; auto.
    apply (storedLogs_write_log _ w).
Qed.

Lemma X10_witness :
  reachable sample_started /\
  mounted (step (DurationChange work true) sample_started)
    = Some (configured_world work true sample_started) /\
  localStorage (configured_world work true sample_started) = localStorage sample_started.
Proof.
  assert (Hr : reachable sample_started).
  { exists ∅, sample_clock, [UserNameChange "ana"; StartPause].
    split; [intros n; unfold sample_clock; lia | vm_compute; reflexivity]. }
  assert (Hs : mounted (step (DurationChange work true) sample_started)
               = Some (configured_world work true sample_started))
    by (vm_compute; reflexivity).
  split; [exact Hr|]. split; [exact Hs|].
  destruct (X10_written_only_on_close _ _ _ Hr Hs) as [E|(start & logs & b & _ & _ & _ & C)];
    [exact E|].
  exfalso. destruct C as [([C|C] & _)|(C & _)]; discriminate C.
Defined.

(** ** Session times *)

Lemma reachable_start_was_read w : reachable w -> start_was_read w.
Proof.
  apply (reachable_invariant start_was_read).
  - intros storage clk _ start. discriminate.
  - intros w0 ev w1 HI HQ Ht start. unfold start_was_read in HQ.
    destruct Ht; simpl; try (unfold configured_world; destruct (same_deps _ _); simpl);
      try exact (HQ start); try discriminate.
    + intros [= <-]. exists (clockReads w0). split; [lia | reflexivity].
    + intros Hs. destruct (HQ _ Hs) as (k & Hk & E). exists k. split; [lia | exact E].
    + intros [= <-]. exists (S (clockReads w0)). split; [lia | reflexivity].
Qed.

(** X13. In every reachable state the open session start is one of the
    readings [Date.now()] gave before; so with a clock that never goes back,
    the entry that closes the session, whenever that happens next, has its
    [startTime] at most its [endTime]. *)
Theorem X13_start_before_end (w : World) (start : Z) (wasInterrupted : bool) :
  reachable w ->
  (forall i j, (i <= j)%nat -> clock w i <= clock w j) ->
  sessionStartHook w = Some start ->
  (exists k, (k < clockReads w)%nat /\ start = clock w k) /\
  Log.startTime (closed_entry (stateHook w) start wasInterrupted w)
    <= Log.endTime (closed_entry (stateHook w) start wasInterrupted w).
Proof.
  intros Hr Hmono Hss.
  destruct (reachable_start_was_read w Hr start Hss) as (k & Hk & ->).
  split; [eauto|]. simpl. apply Hmono. lia.
Qed.

Lemma X13_witness :
  reachable sample_break_ending /\
  sessionStartHook sample_break_ending = Some 3 /\
  Log.startTime (closed_entry (stateHook sample_break_ending) 3 true sample_break_ending)
    <= Log.endTime (closed_entry (stateHook sample_break_ending) 3 true sample_break_ending).
Proof.
  assert (Hr : reachable sample_break_ending).
  { exists ∅, sample_clock,
      ([UserNameChange "ana"; StartPause]
         ++ repeat Tick (Z.to_nat 5400) ++ repeat Tick (Z.to_nat 299)).
    split; [intros n; unfold sample_clock; lia | vm_compute; reflexivity]. }
  assert (Hm : forall i j, (i <= j)%nat ->
                 clock sample_break_ending i <= clock sample_break_ending j).
  { intros i j Hij. change (Z.of_nat (S i) <= Z.of_nat (S j)). lia. }
  assert (Hs : sessionStartHook sample_break_ending = Some 3) by (vm_compute; reflexivity).
  split; [exact Hr|]. split; [exact Hs|].
  apply (X13_start_before_end sample_break_ending 3 true Hr Hm Hs).
Defined.

(** ** What the component leaves alone *)

Section Preserves.
Context {B : Type} (f : World -> B).
Hypothesis f_state : forall st w, f (put_state st w) = f w.
Hypothesis f_sessionStart : forall v w, f (put_sessionStart v w) = f w.
Hypothesis f_timerRef : forall b w, f (put_timerRef b w) = f w.
Hypothesis f_clockReads : forall n w, f (put_clockReads n w) = f w.
Hypothesis f_save : forall session, preserves f (saveSessionToLocalStorage session).

Lemma preserves_ret {A} (a : A) : preserves f (mret a).
Proof. intros w. reflexivity. Qed.

Lemma preserves_bind {A C} (m : M A) (k : A -> M C) :
  preserves f m -> (forall a, preserves f (k a)) -> preserves f (m ≫= k).
Proof.
  intros Hm Hk w. unfold mbind, M_bind. specialize (Hm w).
  destruct (m w) as [a w1|e w1]; [|exact Hm].
  specialize (Hk a w1). destruct (k a w1); congruence.
Qed.

Lemma preserves_setState g : preserves f (setState g).
Proof. intros w. apply f_state. Qed.

Lemma preserves_setSessionStart v : preserves f (setSessionStart v).
Proof. intros w. apply f_sessionStart. Qed.

Lemma preserves_setInterval : preserves f setInterval.
Proof. intros w. apply f_timerRef. Qed.

Lemma preserves_clearInterval : preserves f clearInterval.
Proof. intros w. apply f_timerRef. Qed.

Lemma preserves_Date_now : preserves f Date_now.
Proof. intros w. apply f_clockReads. Qed.

Ltac preserves_tac :=
  repeat first
    [ solve [auto using preserves_ret, preserves_setState, preserves_setSessionStart,
               preserves_setInterval, preserves_clearInterval, preserves_Date_now]
    | match goal with
      | |- preserves _ (match ?x with _ => _ end) => destruct x
      | |- preserves _ (if ?b then _ else _) => destruct b
      end
    | apply preserves_bind; [|intros ?] ].

Lemma preserves_handleEndSession st ss b : preserves f (handleEndSession st ss b).
Proof. unfold handleEndSession. preserves_tac. Qed.

Lemma preserves_handleSessionSwitch : preserves f handleSessionSwitch.
Proof. unfold handleSessionSwitch, startNewSession. preserves_tac. Qed.

Lemma preserves_effect st ss : preserves f (cleanup;; effect st ss).
Proof.
  unfold cleanup, effect.
  pose proof preserves_handleEndSession. pose proof preserves_handleSessionSwitch.
  preserves_tac.
Qed.

Lemma preserves_handlers st ss :
  preserves f (handleReset st ss) /\ preserves f (handleInterrupt st ss) /\
  (forall type increment, preserves f (handleDurationChange type increment)) /\
  (forall value, preserves f (handleUserNameChange value)) /\ preserves f tick /\
  (userName st <> ""%string -> preserves f (handleStartPause st ss)).
Proof.
  pose proof preserves_handleEndSession.
  repeat split; intros;
    unfold handleReset, handleInterrupt, handleDurationChange,
      handleUserNameChange, tick, handleStartPause, startNewSession.
  1-5: preserves_tac.
  destruct (String.eqb_spec (userName st) ""); [contradiction|]. preserves_tac.
Qed.

Lemma rerender_preserves fuel : forall rendered w w',
  world_of (rerender fuel rendered w) = Some w' -> f w' = f w.
Proof.
  induction fuel as [|fuel IH]; intros rendered w w'; unfold rerender; fold rerender;
    destruct (same_deps rendered (stateHook w)).
  1-3: simpl; intros [= <-]; reflexivity.
  pose proof (preserves_effect (stateHook w) (sessionStartHook w) w) as He.
  destruct ((cleanup;; effect (stateHook w) (sessionStartHook w)) w) as [[] w1|e w1].
  - intros H. rewrite (IH _ _ _ H). exact He.
  - simpl. intros [= <-]. exact He.
Qed.

Lemma dispatch_preserves handler w w' :
  preserves f (handler (stateHook w) (sessionStartHook w)) ->
  world_of (dispatch handler w) = Some w' -> f w' = f w.
Proof.
  intros Hh. unfold dispatch. specialize (Hh w).
  destruct (handler (stateHook w) (sessionStartHook w) w) as [[] w1|e w1].
  - intros H. rewrite (rerender_preserves _ _ _ _ H). exact Hh.
  - intros H. rewrite <- Hh.
    destruct (rerender effect_runs (stateHook w) w1) eqn:E; simpl in H;
      try discriminate; injection H as <-;
      eapply rerender_preserves; rewrite E; reflexivity.
Qed.

(** Every event but a click on start or pause with an empty name keeps [f]. *)
Lemma step_preserves ev w w' :
  (ev = StartPause -> userName (stateHook w) <> ""%string) ->
  world_of (step ev w) = Some w' -> f w' = f w.
Proof.
  intros Hn.
  destruct (preserves_handlers (stateHook w) (sessionStartHook w))
    as (H1 & H2 & H3 & H4 & H5 & H6).
  destruct ev; simpl; try (destruct (timerRef w); [|intros [= <-]; reflexivity]);
    apply dispatch_preserves; auto.
Qed.
End Preserves.

Lemma save_keeps_other_keys key session :
  key <> "pomodoitSessions"%string ->
  preserves (fun w => localStorage w !! key) (saveSessionToLocalStorage session).
Proof.
  intros Hk w. rewrite saveSessionToLocalStorage_eq.
  destruct (storedLogs w).
  - unfold write_log. simpl. apply lookup_insert_ne. congruence.
  - destruct (stored w) as [text|]; [destruct (JSON_parse text)|]; reflexivity.
Qed.

(** X11. No event ever touches a [localStorage] key other than
    [pomodoitSessions]: whatever the world, whatever the outcome (also when
    a handler throws or the component is unmounted), every other key holds
    what it held. *)
Theorem X11_other_keys_untouched (ev : Event) (w w' : World) (key : string) :
  key <> "pomodoitSessions"%string ->
  world_of (step ev w) = Some w' ->
  localStorage w' !! key = localStorage w !! key.
Proof.
  intros Hk Hstep.
  assert (Hp : (ev = StartPause -> userName (stateHook w) <> ""%string) ->
               localStorage w' !! key = localStorage w !! key).
  { intros Hn. apply (step_preserves (fun w => localStorage w !! key)) with (ev := ev);
      auto using save_keeps_other_keys. }
  destruct (decide (userName (stateHook w) = ""%string)) as [Hn|Hn]; [|auto].
  destruct ev; try (apply Hp; discriminate).
  rewrite step_StartPause_alert in Hstep by exact Hn. injection Hstep as <-. reflexivity.
Qed.

Lemma X11_witness :
  ("theme" : string) <> "pomodoitSessions"%string /\
  world_of (step Interrupt sample_themed) = Some (interrupted_world [] 1 sample_themed) /\
  localStorage (interrupted_world [] 1 sample_themed) !! "theme"%string
    = localStorage sample_themed !! "theme"%string.
Proof.
  assert (H : ("theme" : string) <> "pomodoitSessions"%string) by discriminate.
  assert (Hs : world_of (step Interrupt sample_themed)
               = Some (interrupted_world [] 1 sample_themed)) by (vm_compute; reflexivity).
  split; [exact H|]. split; [exact Hs|].
  apply (X11_other_keys_untouched Interrupt sample_themed _ "theme" H Hs).
Defined.

Lemma save_keeps_alerts session : preserves alerts (saveSessionToLocalStorage session).
Proof.
  intros w. rewrite saveSessionToLocalStorage_eq.
  destruct (storedLogs w).
  - reflexivity.
  - destruct (stored w) as [text|]; [destruct (JSON_parse text)|]; reflexivity.
Qed.

(** X12. The only alert the component ever shows is the one asking for a
    name: an event leaves the alerts as they are unless it is a click on
    start or pause with an empty name, which adds that one message.  A
    failure to write the log is never reported to the user. *)
Theorem X12_only_alert (ev : Event) (w w' : World) :
  world_of (step ev w) = Some w' ->
  alerts w' = alerts w \/
  ev = StartPause /\ userName (stateHook w) = ""%string /\
  alerts w' = alerts w ++ [validation_message].
Proof.
  intros Hstep.
  assert (Hp : (ev = StartPause -> userName (stateHook w) <> ""%string) ->
               alerts w' = alerts w).
  { intros Hn. apply (step_preserves alerts) with (ev := ev);
      auto using save_keeps_alerts. }
  destruct (decide (userName (stateHook w) = ""%string)) as [Hn|Hn]; [|auto].
  destruct ev; try (left; apply Hp; discriminate).
  right. rewrite step_StartPause_alert in Hstep by exact Hn. injection Hstep as <-. auto.
Qed.

Lemma X12_witness :
  world_of (step Interrupt sample_unreadable) = Some (failed_world sample_unreadable) /\
  (alerts (failed_world sample_unreadable) = alerts sample_unreadable \/
   Interrupt = StartPause /\ userName (stateHook sample_unreadable) = ""%string /\
   alerts (failed_world sample_unreadable)
     = alerts sample_unreadable ++ [validation_message]).
Proof.
  assert (Hs : world_of (step Interrupt sample_unreadable)
               = Some (failed_world sample_unreadable)) by (vm_compute; reflexivity).
  split; [exact Hs|].
  apply (X12_only_alert Interrupt sample_unreadable (failed_world sample_unreadable) Hs).
Defined.

(** ** The display *)

(** The time text of a non-negative count: the minutes, a colon, the
    seconds. *)
Lemma formatTime_shape (seconds : Z) :
  0 <= seconds ->
  exists mm ss : chars,
    formatTime seconds = string_of_list_ascii (mm ++ ":"%char :: ss) /\
    forallb is_digit mm = true /\ forallb is_digit ss = true /\
    decimal_value mm = seconds / 60 /\
    decimal_value ss = seconds mod 60 /\
    (2 <= length mm)%nat /\ length ss = 2%nat.
Proof.
  intros Hs.
  assert (Hm : 0 <= seconds / 60) by (apply Z.div_pos; lia).
  assert (Hr : 0 <= seconds mod 60 < 60) by (apply Z.mod_pos_bound; lia).
  destruct (digits_spec _ Hm) as (Vm & Nm).
  destruct (digits_spec (seconds mod 60)) as (Vr & Nr); [lia|].
  pose proof (digits_below_100 (seconds mod 60)) as Lr.
  unfold formatTime, Number_toString, Number_toString_chars.
  rewrite Z.rem_mod_nonneg by lia.
  destruct (Z.ltb_spec (seconds / 60) 0); [lia|].
  destruct (Z.ltb_spec (seconds mod 60) 0); [lia|].
  rewrite !padStart_numeral by (apply numeral_nonempty; assumption).
  eexists _, _. split.
  { rewrite string_of_list_ascii_app. reflexivity. }
  destruct Nm as [Dm Zm], Nr as [Dr Zr].
  destruct (digits (seconds / 60)) as [|a [|b mm]]; [contradiction| |];
    (destruct (digits (seconds mod 60)) as [|c [|d ss]];
       [contradiction| |]);
    simpl in Lr |- *; repeat split;
    try rewrite decimal_value_leading_zero; auto; try lia.
  all: try (simpl in *; lia).
Qed.

Lemma colon_splits (m m' s s' : chars) :
  forallb is_digit m = true -> forallb is_digit m' = true ->
  m ++ ":"%char :: s = m' ++ ":"%char :: s' -> m = m' /\ s = s'.
Proof.
  revert m'. induction m as [|c m IH]; intros [|c' m'] Hm Hm' E; simpl in *.
  - injection E as <-. auto.
  - injection E as <- _. discriminate Hm'.
  - injection E as -> _. discriminate Hm.
  - injection E as <- E. apply andb_prop in Hm, Hm'.
    destruct (IH m') as [<- <-]; tauto.
Qed.

Lemma string_of_list_ascii_inj (a b : chars) :
  string_of_list_ascii a = string_of_list_ascii b -> a = b.
Proof.
  intros E. rewrite <- (list_ascii_of_string_of_list_ascii a),
              <- (list_ascii_of_string_of_list_ascii b), E. reflexivity.
Qed.

(** X14. The time text determines the time: two non-negative counts of
    seconds that [formatTime] shows alike are equal. *)
Theorem X14_formatTime_injective (a b : Z) :
  0 <= a -> 0 <= b -> formatTime a = formatTime b -> a = b.
Proof.
  intros Ha Hb E.
  destruct (formatTime_shape a Ha) as (ma & sa & Ea & Dma & _ & Vma & Vsa & _).
  destruct (formatTime_shape b Hb) as (mb & sb & Eb & Dmb & _ & Vmb & Vsb & _).
  rewrite Ea, Eb in E. apply string_of_list_ascii_inj in E.
  apply colon_splits in E; auto. destruct E as [<- <-].
  rewrite (Z.div_mod a 60), (Z.div_mod b 60) by lia. congruence.
Qed.

Lemma X14_witness :
  0 <= 5400 /\ 0 <= 90 * 60 /\ formatTime 5400 = formatTime (90 * 60) /\ 5400 = 90 * 60.
Proof.
  assert (Ha : 0 <= 5400) by lia. assert (Hb : 0 <= 90 * 60) by lia.
  assert (E : formatTime 5400 = formatTime (90 * 60)) by reflexivity.
  split; [exact Ha|]. split; [exact Hb|]. split; [exact E|].
  apply (X14_formatTime_injective 5400 (90 * 60) Ha Hb E).
Defined.

(** X15. What a reachable state shows.  The time is always minutes, colon,
    two digits of seconds below 60, and it reads the countdown, which is
    positive and within the duration of the current session; an idle timer
    always shows the label Work, the full work duration and the play icon. *)
Theorem X15_display (w : World) :
  reachable w ->
  let st := stateHook w in
  (exists mm ss : chars,
     timeDisplay (view st) = string_of_list_ascii (mm ++ ":"%char :: ss) /\
     forallb is_digit mm = true /\ forallb is_digit ss = true /\
     length ss = 2%nat /\ decimal_value ss < 60 /\
     60 * decimal_value mm + decimal_value ss = currentTime st /\
     0 < currentTime st <= currentDuration st) /\
  (timerStatus st = idle ->
   view st = {| userNameInput := userName st;
                sessionLabel := "Work";
                timeDisplay := formatTime (workDuration st);
                startPauseIcon := PlayIcon |}).
Proof.
  intros Hr st. subst st.
  pose proof (reachable_well_timed w Hr) as HT.
  destruct HT as (_ & _ & _ & _ & Hc).
  split.
  - destruct (formatTime_shape (currentTime (stateHook w))) as
      (mm & ss & E & Dm & Ds & Vm & Vs & _ & Ls); [lia|].
    exists mm, ss. cbn [view timeDisplay]. repeat split; auto; try lia.
    + rewrite Vs. apply Z.mod_pos_bound. lia.
    + rewrite Vm, Vs. symmetry. apply Z.div_mod. lia.
  - intros Hid. apply reachable_Inv in Hr. destruct Hr as [_ _ _ Hi _ _ _].
    destruct (Hi Hid) as (_ & Hcs & Hct & _).
    unfold view. rewrite Hcs, Hct, Hid. reflexivity.
Qed.

Lemma X15_witness :
  reachable sample_idle /\
  view (stateHook sample_idle)
    = {| userNameInput := "ana"; sessionLabel := "Work";
         timeDisplay := "91:00"; startPauseIcon := PlayIcon |}.
Proof.
  assert (Hr : reachable sample_idle).
  { exists ∅, sample_clock,
      [UserNameChange "ana"; StartPause; Tick; DurationChange work true; Interrupt].
    split; [intros n; unfold sample_clock; lia | vm_compute; reflexivity]. }
  split; [exact Hr|].
  rewrite (proj2 (X15_display sample_idle Hr)) by (vm_compute; reflexivity).
  vm_compute. reflexivity.
Defined.

(** ** The duration buttons *)

Lemma step_DurationChange_any type increment w :
  exists w',
    step (DurationChange type increment) w = Settled w' /\
    stateHook w' = adjust_duration type increment (stateHook w) /\
    sessionStartHook w' = sessionStartHook w /\
    localStorage w' = localStorage w.
Proof.
  destruct w as [[wd bd ct cs ts un] ss tm ls al clk n]; simpl.
  unfold step, dispatch, effect_runs, handleDurationChange. munfold. simpl.
  destruct type, cs; simpl;
    first [ rewrite rerender_same by (apply same_deps_eq; reflexivity)
          | rewrite rerender_nonzero by (simpl; lia);
            match goal with |- context [same_deps ?a ?b] => destruct (same_deps a b) end ];
    eexists; (split; [reflexivity|]); simpl; repeat split; reflexivity.
Qed.

(** X16. The plus and minus buttons are not inverse at the floor.  In any
    world, plus then minus leaves the duration at [max 60 d], so it is
    restored whenever it was at least 60; minus then plus leaves
    [max 120 d], so a duration of one minute becomes two.  Either way the
    other duration is untouched, and when the adjusted type is the current
    session the countdown restarts from the resulting duration. *)
Theorem X16_plus_minus (type : SessionType) (w : World) :
  let st := stateHook w in
  let other := match type with work => break | break => work end in
  (exists w',
     run [DurationChange type true; DurationChange type false] w = Some w' /\
     durationOf type (stateHook w') = Z.max 60 (durationOf type st) /\
     durationOf other (stateHook w') = durationOf other st /\
     currentTime (stateHook w') =
       (if decide (type = currentSession st) then Z.max 60 (durationOf type st)
        else currentTime st)) /\
  (exists w',
     run [DurationChange type false; DurationChange type true] w = Some w' /\
     durationOf type (stateHook w') = Z.max 120 (durationOf type st) /\
     durationOf other (stateHook w') = durationOf other st /\
     currentTime (stateHook w') =
       (if decide (type = currentSession st) then Z.max 120 (durationOf type st)
        else currentTime st)).
Proof.
  intros st other. subst st other.
  split.
  - destruct (step_DurationChange_any type true w) as (w1 & E1 & S1 & _).
    destruct (step_DurationChange_any type false w1) as (w2 & E2 & S2 & _).
    exists w2. cbn [run]. rewrite E1. cbn [mounted]. rewrite E2. cbn [mounted].
    split; [reflexivity|]. rewrite S2, S1.
    destruct (stateHook w) as [wd bd ct cs ts un].
    destruct type, cs; simpl; repeat split; lia.
  - destruct (step_DurationChange_any type false w) as (w1 & E1 & S1 & _).
    destruct (step_DurationChange_any type true w1) as (w2 & E2 & S2 & _).
    exists w2. cbn [run]. rewrite E1. cbn [mounted]. rewrite E2. cbn [mounted].
    split; [reflexivity|]. rewrite S2, S1.
    destruct (stateHook w) as [wd bd ct cs ts un].
    destruct type, cs; simpl; repeat split; lia.
Qed.

(** ** The log as a timeline *)

Lemma chronological_after_snoc ended entries e :
  chronological_after ended entries ->
  Log.startTime e <= Log.endTime e ->
  Forall (fun t => t <= Log.startTime e) ended ->
  Forall (fun e' => Log.endTime e' <= Log.startTime e) entries ->
  chronological_after ended (entries ++ [e]).
Proof.
  revert ended. induction entries as [|e' entries IH]; intros ended Hc Hse He Hes; simpl.
  - repeat split; auto.
  - destruct Hc as (H1 & H2 & H3). apply Forall_cons in Hes. destruct Hes as [Hes1 Hes2].
    split; [exact H1|]. split; [exact H2|]. apply IH; auto.
Qed.

Section Timeline.
Variable old : list json.
Variable clk : nat -> Z.
Hypothesis clk_monotone : forall i j, (i <= j)%nat -> clk i <= clk j.

Lemma timeline_same w w' entries :
  timeline old clk w entries ->
  clock w' = clock w -> localStorage w' = localStorage w ->
  sessionStartHook w' = sessionStartHook w ->
  (clockReads w <= clockReads w')%nat ->
  timeline old clk w' entries.
Proof.
  intros (Hc & Hl & Hch & He & Hs) Ec El Es En. repeat split; auto.
  - congruence.
  - rewrite (storedLogs_same_storage w w') by exact El. exact Hl.
  - eapply Forall_impl; [exact He|]. intros e (j & Hj & E). exists j. split; [lia | exact E].
  - rewrite Es in H. destruct (Hs _ H) as ((i & Hi & E) & _). exists i. split; [lia | exact E].
  - rewrite Es in H. apply (Hs _ H).
Qed.

Lemma timeline_append w w' entries start wasInterrupted :
  timeline old clk w entries ->
  sessionStartHook w = Some start ->
  clock w' = clock w ->
  storedLogs w' = Some ((old ++ map SessionLog_toJSON entries)
                        ++ [SessionLog_toJSON
                              (closed_entry (stateHook w) start wasInterrupted w)]) ->
  (clockReads w < clockReads w')%nat ->
  (forall start', sessionStartHook w' = Some start' ->
     exists i, (clockReads w < i < clockReads w')%nat /\ start' = clk i) ->
  timeline old clk w' (entries ++ [closed_entry (stateHook w) start wasInterrupted w]).
Proof.
  intros (Hc & Hl & Hch & He & Hs) Hss Ec El En Hs'.
  destruct (Hs _ Hss) as ((i & Hi & ->) & Hbefore).
  repeat split.
  - congruence.
  - rewrite El, map_app, app_assoc. reflexivity.
  - apply chronological_after_snoc; auto; simpl.
    rewrite Hc. apply clk_monotone. lia.
  - apply Forall_app. split.
    + eapply Forall_impl; [exact He|]. intros e (j & Hj & E). exists j. split; [lia | exact E].
    + constructor; [|constructor]. exists (clockReads w). simpl. rewrite Hc. split; [lia | reflexivity].
  - destruct (Hs' _ H) as (i' & Hi' & ->). exists i'. split; [lia | reflexivity].
  - destruct (Hs' _ H) as (i' & Hi' & ->). apply Forall_app. split.
    + eapply Forall_impl; [exact He|]. intros e (j & Hj & ->). apply clk_monotone. lia.
    + constructor; [|constructor]. simpl. rewrite Hc. apply clk_monotone. lia.
Qed.

Lemma transition_timeline w ev w' entries :
  timeline old clk w entries -> transition w ev w' ->
  exists entries', timeline old clk w' entries'.
Proof.
  intros HT Ht. pose proof HT as (Hc & Hl & Hch & He & Hs).
  destruct Ht.
  - exists entries. apply (timeline_same w); auto.
  - (* start *)
    exists entries. repeat split; auto; simpl.
    + eapply Forall_impl; [exact He|]. intros e (j & Hj & E). exists j. split; [lia | exact E].
    + injection H1 as <-. exists (clockReads w). rewrite Hc. split; [lia | reflexivity].
    + injection H1 as <-. eapply Forall_impl; [exact He|].
      intros e (j & Hj & ->). rewrite Hc. apply clk_monotone. lia.
  - exists entries. apply (timeline_same w); auto.
  - exists entries. apply (timeline_same w); auto.
  - exists entries. exact HT.
  - (* close *)
    rewrite Hl in H2. injection H2 as <-.
    eexists. apply (timeline_append w _ entries start true); auto;
      first [ apply storedLogs_interrupted_world | simpl; lia | simpl; discriminate ].
  - exists entries. apply (timeline_same w); auto. simpl. lia.
  - exists entries. apply (timeline_same w); auto;
      unfold configured_world; destruct (same_deps _ _); reflexivity.
  - exists entries. apply (timeline_same w); auto.
  - exists entries. exact HT.
  - exists entries. apply (timeline_same w); auto.
  - (* switch *)
    rewrite Hl in H2. injection H2 as <-.
    eexists. apply (timeline_append w _ entries start false); auto;
      first [ apply (storedLogs_write_log _ w) | simpl; lia | idtac ].
    simpl. intros start' [= <-]. exists (S (clockReads w)).
    rewrite Hc. split; [lia | reflexivity].
Qed.

Lemma run_timeline evs : forall w w' entries,
  Inv w -> timeline old clk w entries -> run evs w = Some w' ->
  exists entries', timeline old clk w' entries'.
Proof.
  induction evs as [|ev evs IH]; cbn [run]; intros w w' entries HI HT.
  - intros [= <-]. eauto.
  - destruct (mounted (step ev w)) as [w1|] eqn:E; [|discriminate].
    intros Hrun.
    destruct (transition_timeline w ev w1 entries HT) as [entries1 HT1];
      [apply step_transition; auto|].
    apply (IH w1 w' entries1); auto. eapply step_Inv; eauto.
Qed.
End Timeline.

(** X18. The log is a timeline.  Mount the component over a readable
    stored log with a clock that never reads 0 and never goes back: after
    any events, the stored log is what was stored followed by session
    records in the order of time, each ending no earlier than it starts and
    starting no earlier than all the ones before it ended. *)
Theorem X18_log_is_chronological
    (storage : gmap string string) (clk : nat -> Z) (old : list json)
    (evs : list Event) (w : World) :
  (forall n, clk n <> 0) ->
  (forall i j, (i <= j)%nat -> clk i <= clk j) ->
  storedLogs (initialWorld storage clk) = Some old ->
  run evs (initialWorld storage clk) = Some w ->
  exists entries : list SessionLog,
    storedLogs w = Some (old ++ map SessionLog_toJSON entries) /\
    chronological entries.
Proof.
  intros Hnz Hmono Hold Hrun.
  destruct (run_timeline old clk Hmono evs (initialWorld storage clk) w [])
    as (entries & _ & Hl & Hch & _); auto.
  - apply initialWorld_Inv, Hnz.
  - repeat split; simpl; auto; try discriminate.
    rewrite app_nil_r. exact Hold.
  - eauto.
Qed.

Lemma X18_witness :
  run sample_day_events (initialWorld ∅ sample_clock) = Some sample_day /\
  exists entries : list SessionLog,
    storedLogs sample_day = Some ([] ++ map SessionLog_toJSON entries) /\
    chronological entries.
Proof.
  assert (H1 : forall n, sample_clock n <> 0) by (intros n; unfold sample_clock; lia).
  assert (H2 : forall i j, (i <= j)%nat -> sample_clock i <= sample_clock j)
    by (intros i j Hij; unfold sample_clock; lia).
  assert (H3 : storedLogs (initialWorld ∅ sample_clock) = Some []) by reflexivity.
  assert (H4 : run sample_day_events (initialWorld ∅ sample_clock) = Some sample_day)
    by (vm_compute; reflexivity).
  split; [exact H4|].
  apply (X18_log_is_chronological ∅ sample_clock [] sample_day_events sample_day H1 H2 H3 H4).
Defined.

Example sample_day_log :
  storedLogs sample_day =
    Some (map SessionLog_toJSON
            [ {| Log.userName := "ana"; Log.sessionType := work;
                 Log.startTime := 1; Log.endTime := 2; Log.interrupted := false |};
              {| Log.userName := "ana"; Log.sessionType := break;
                 Log.startTime := 3; Log.endTime := 4; Log.interrupted := false |};
              {| Log.userName := "ana"; Log.sessionType := work;
                 Log.startTime := 5; Log.endTime := 6; Log.interrupted := true |} ]).
Proof. vm_compute. reflexivity. Qed.
